(** * SAML sign-in for res.users: a shallow embedding of
      [auth_saml/models/res_users.py]

    The Python class [ResUser] extends Odoo's [res.users] model.  Its
    methods read and write three tables ([res.users], [res.users.saml],
    [auth_saml.token]), the configuration parameters, and raise Python
    exceptions.  The embedding below keeps this shape:

    - a record set is the list of its ids, fields are read from the state;
    - every method is a computation in a state-and-exception monad whose
      state survives a raise (what has been written before a [raise] stays
      written, as in Python);
    - the collaborators that live outside the file (the provider's response
      validator, the inherited [_check_credentials] and [create]) are
      variables of a section. *)

From Stdlib Require Import ZArith String Ascii List Lia.
From stdpp Require Import base option list gmap strings.

Open Scope string_scope.
Open Scope list_scope.
Open Scope Z_scope.

(** ** Rows *)

(** The hash the inherited [_set_password] stores, kept symbolic. *)
Inductive pwhash :=
| Crypt (plain : string).

Module User.
(** A row of [res.users].  [password] is the value of the field as the
    record reads it ([user.password]): the field is computed and not
    stored, so it reads the value the cache holds from an assignment until
    the inverse has run, and [''] once [invalidate_cache] has dropped that
    value.  [password_column] is the column that [_set_password] updates
    ([None] is SQL NULL). *)
Record t := mk {
  id : Z;
  login : option string;
  password : option string;
  password_column : option pwhash
}.
End User.

Module SamlId.
(** A row of [res.users.saml]: the link of a user to a subject of a
    provider. *)
Record t := mk {
  id : Z;
  user_id : Z;
  saml_provider_id : Z;
  saml_uid : string
}.
End SamlId.

Module Token.
(** A row of [auth_saml.token]. *)
Record t := mk {
  id : Z;
  user_id : Z;
  saml_provider_id : Z;
  saml_access_token : option string
}.
End Token.

(** ** Python values and exceptions *)

(** The values a [vals] dictionary or the context carries in this module:
    [False], [True], a string, or the commands written to the One2many
    [saml_ids].  The commands are interpreted by the inherited [write]; a
    list of them is given by what that [write] makes of the table
    [res.users.saml] when it applies them to a record set. *)
Inductive pyval :=
| PyFalse
| PyTrue
| PyStr (s : string)
| PyCommands (run : list Z -> list SamlId.t -> list SamlId.t).

Definition str_truthy (s : string) : bool :=
  match s with
  | EmptyString => false
  | _ => true
  end.

Definition truthy (v : pyval) : bool :=
  match v with
  | PyFalse => false
  | PyTrue => true
  | PyStr s => str_truthy s
  | PyCommands _ => true
  end.

(** A [Char] field holds [False] ([None] here) or a string. *)
Definition char_truthy (v : option string) : bool :=
  match v with
  | None => false
  | Some s => str_truthy s
  end.

(** Conversion of a written value to the value of a [Char] field; a list
    is kept as its text, which is not spelled out here. *)
Definition to_char (v : pyval) : option string :=
  match v with
  | PyFalse => None
  | PyTrue => Some "True"
  | PyStr s => Some s
  | PyCommands _ => Some "[...]"
  end.

Inductive exn :=
| AccessDenied
| PasswordSizeError
| ValidationError (logins : list (option string))
| ValueError (msg : string)
| KeyError (key : string)
| MissingError (model : string) (rid : Z)
| OtherError (name : string).

(** [except (AccessDenied, passlib.exc.PasswordSizeError)] *)
Definition caught_by_check_credentials (e : exn) : bool :=
  match e with
  | AccessDenied | PasswordSizeError => true
  | _ => false
  end.

(** ** Tables *)

(** The part of the database and of the process the module touches.  Every
    table is listed in the order a [search] returns its rows. *)
Record State := mkState {
  res_users : list User.t;
  res_users_saml : list SamlId.t;
  auth_saml_token : list Token.t;
  token_seq : Z;
  ir_config_parameter : gmap string string;
  base_user_admin : option Z;
  installed_modules : list string;
  logger : list string
}.

(** The environment of a call: [env.user.id], [env.context],
    [env.cr.dbname], and the string [passlib.utils.generate_password]
    returns if this call reaches it (one call draws at most once). *)
Record Env := mkEnv {
  uid : Z;
  context : gmap string pyval;
  dbname : string;
  generate_password : string
}.

Definition SUPERUSER_ID : Z := 1.

(** ** The monad of a method call *)

Definition M (A : Type) : Type := State -> State * (exn + A).

Definition ret {A} (a : A) : M A := fun s => (s, inr a).

Definition raise {A} (e : exn) : M A := fun s => (s, inl e).

Definition bind {A B} (m : M A) (k : A -> M B) : M B :=
  fun s =>
    match m s with
    | (s', inr a) => k a s'
    | (s', inl e) => (s', inl e)
    end.

Notation "'let*' x ':=' m 'in' k" := (bind m (fun x => k))
  (at level 10, x name, m at level 100, k at level 200).
Notation "m ';;' k" := (bind m (fun _ => k))
  (at level 100, k at level 200, right associativity).

Definition get : M State := fun s => (s, inr s).

Definition modify (f : State -> State) : M unit := fun s => (f s, inr tt).

Definition lift {A} (r : exn + A) : M A := fun s => (s, r).

(** [recs.filtered(lambda r: ...)] with a lambda that may raise: records
    are visited in order and the first raise ends the visit. *)
Fixpoint filtered {A} (p : A -> M bool) (recs : list A) : M (list A) :=
  match recs with
  | [] => ret []
  | r :: rest =>
      let* keep := p r in
      let* kept := filtered p rest in
      ret (if keep then r :: kept else kept)
  end.

(** [for r in recs: body] *)
Fixpoint for_each {A} (body : A -> M unit) (recs : list A) : M unit :=
  match recs with
  | [] => ret tt
  | r :: rest => body r;; for_each body rest
  end.

(** ** Configuration *)

Definition lower_ascii (c : ascii) : ascii :=
  let n := nat_of_ascii c in
  if (Nat.leb 65 n && Nat.leb n 90)%bool then ascii_of_nat (n + 32) else c.

Fixpoint lower (s : string) : string :=
  match s with
  | EmptyString => EmptyString
  | String c rest => String (lower_ascii c) (lower rest)
  end.

Definition mem_string (x : string) (l : list string) : bool :=
  existsb (String.eqb x) l.

(** [odoo.tools.str2bool(s)] without a default: the words are
    ['y yes 1 true t on'] and ['n no 0 false f off']. *)
Definition str2bool (s : string) : exn + bool :=
  let s := lower s in
  let y := ["y"; "yes"; "1"; "true"; "t"; "on"] in
  let n := ["n"; "no"; "0"; "false"; "f"; "off"] in
  if mem_string s (y ++ n) then inr (mem_string s y)
  else inl (ValueError "Use 0/1/yes/no/true/false/on/off").

(** [ir.config_parameter.get_param(key, default)]: the stored value, or the
    default when the key is absent or its value is empty. *)
Definition get_param (s : State) (key default : string) : string :=
  match ir_config_parameter s !! key with
  | Some v => if str_truthy v then v else default
  | None => default
  end.

Definition _allow_saml_and_password : M bool :=
  let* s := get in
  lift (str2bool
          (get_param s "auth_saml.allow_saml_uid_and_internal_password" "False")).

(** [_saml_allowed_user_ids]: the superuser, and the record of
    [base.user_admin] when [env.ref] finds it. *)
Definition _saml_allowed_user_ids (s : State) : gset Z :=
  let allowed_users : gset Z := {[ SUPERUSER_ID ]} in
  match base_user_admin s with
  | Some admin => allowed_users ∪ {[ admin ]}
  | None => allowed_users
  end.

(** ** Records and their fields *)

(** [recs.id]: [False] on the empty record set, the id of a singleton, and
    a [ValueError] on anything longer. *)
Definition record_id (recs : list Z) : exn + option Z :=
  match recs with
  | [] => inr None
  | [i] => inr (Some i)
  | _ => inl (ValueError "Expected singleton")
  end.

(** [rid not in allowed], where [rid] is the result of [recs.id]. *)
Definition not_in_allowed (rid : option Z) (allowed : gset Z) : bool :=
  match rid with
  | None => true
  | Some i => negb (bool_decide (i ∈ allowed))
  end.

Definition nonempty {A} (l : list A) : bool :=
  match l with
  | [] => false
  | _ => true
  end.

Definition mem_Z (i : Z) (l : list Z) : bool := existsb (Z.eqb i) l.

Definition find_user (s : State) (i : Z) : option User.t :=
  List.find (fun u => User.id u =? i) (res_users s).

(** Reading a field of a user that has no row raises [MissingError]. *)
Definition read_user (i : Z) : M User.t :=
  let* s := get in
  match find_user s i with
  | Some u => ret u
  | None => raise (MissingError "res.users" i)
  end.

Definition saml_ids_of (s : State) (i : Z) : list SamlId.t :=
  List.filter (fun l => SamlId.user_id l =? i) (res_users_saml s).

(** [user.saml_ids], the One2many over [res.users.saml]. *)
Definition saml_ids (i : Z) : M (list SamlId.t) :=
  read_user i;;
  let* s := get in
  ret (saml_ids_of s i).

(** [recs.mapped("login")] *)
Fixpoint mapped_login (recs : list Z) : M (list (option string)) :=
  match recs with
  | [] => ret []
  | r :: rest =>
      let* u := read_user r in
      let* ls := mapped_login rest in
      ret (User.login u :: ls)
  end.

Definition set_users (us : list User.t) (s : State) : State :=
  mkState us (res_users_saml s) (auth_saml_token s) (token_seq s)
          (ir_config_parameter s) (base_user_admin s) (installed_modules s)
          (logger s).

Definition set_tokens (ts : list Token.t) (seq : Z) (s : State) : State :=
  mkState (res_users s) (res_users_saml s) ts seq
          (ir_config_parameter s) (base_user_admin s) (installed_modules s)
          (logger s).

Definition log_info (msg : string) (s : State) : State :=
  mkState (res_users s) (res_users_saml s) (auth_saml_token s) (token_seq s)
          (ir_config_parameter s) (base_user_admin s) (installed_modules s)
          (logger s ++ [msg]).

(** Apply [f] to the rows of [res.users] whose id is in [ids]. *)
Definition update_users (ids : list Z) (f : User.t -> User.t) (s : State) : State :=
  set_users (map (fun u => if mem_Z (User.id u) ids then f u else u) (res_users s)) s.

Definition set_password_column (c : option pwhash) (u : User.t) : User.t :=
  User.mk (User.id u) (User.login u) (User.password u) c.

Definition set_login (v : option string) (u : User.t) : User.t :=
  User.mk (User.id u) v (User.password u) (User.password_column u).

Definition set_password (v : option string) (u : User.t) : User.t :=
  User.mk (User.id u) (User.login u) v (User.password_column u).

Definition set_links (ls : list SamlId.t) (s : State) : State :=
  mkState (res_users s) ls (auth_saml_token s) (token_seq s)
          (ir_config_parameter s) (base_user_admin s) (installed_modules s)
          (logger s).

(** ** The password inverse *)

(** [invalidate_cache(["password"], ids)]: the cache drops the value of
    the field for these records; read again, the field is computed, and
    the compute method of [password] gives ['']. *)
Definition invalidate_cache_password (ids : list Z) : M unit :=
  modify (update_users ids (set_password (Some ""))).

(** The inherited [_set_password]: every user of the record set gets the
    hash of its password value stored, by [_set_encrypted_password], which
    ends in [invalidate_cache(["password"], [uid])]. *)
Definition super_set_password (self : list Z) : M unit :=
  for_each (fun user =>
      let* u := read_user user in
      match User.password u with
      | Some p =>
          modify (update_users [user] (set_password_column (Some (Crypt p))));;
          invalidate_cache_password [user]
      | None => raise (OtherError "TypeError")
      end) self.

(** [self - blank_password_users] *)
Definition minus (self other : list Z) : list Z :=
  List.filter (fun i => negb (mem_Z i other)) self.

(** The lambda of lines 41-43: the user has SAML ids, [self.id] is not an
    allowed id, and the password field of the user reads non-empty. *)
Definition password_conflict (self : list Z) (user : Z) : M bool :=
  let* links := saml_ids user in
  if nonempty links then
    let* rid := lift (record_id self) in
    let* s := get in
    if not_in_allowed rid (_saml_allowed_user_ids s) then
      let* u := read_user user in
      ret (char_truthy (User.password u))
    else ret false
  else ret false.

(** The lambda of line 58: [user.password is False]. *)
Definition password_is_false (user : Z) : M bool :=
  let* u := read_user user in
  ret (match User.password u with None => true | Some _ => false end).

(** [_set_password], lines 35-70. *)
Definition _set_password (self : list Z) : M unit :=
  let* allow := _allow_saml_and_password in
  (if negb allow then
     let* saml_users := filtered (password_conflict self) self in
     if nonempty saml_users then
       let* logins := mapped_login saml_users in
       raise (ValidationError logins)
     else ret tt
   else ret tt);;
  let* blank_password_users := filtered password_is_false self in
  let non_blank_password_users := minus self blank_password_users in
  (if nonempty non_blank_password_users
   then super_set_password non_blank_password_users
   else ret tt);;
  (if nonempty blank_password_users
   then
     modify (update_users blank_password_users (set_password_column None));;
     invalidate_cache_password blank_password_users
   else ret tt).

(** ** The token table *)

(** [token_osv.search([("saml_provider_id", "=", provider),
    ("user_id", "=", user)])] *)
Definition search_token (s : State) (user provider : Z) : list Token.t :=
  List.filter (fun t => (Token.saml_provider_id t =? provider)
                        && (Token.user_id t =? user))%bool
              (auth_saml_token s).

(** [search([("user_id", "=", user), ("saml_access_token", "=", password)])] *)
Definition search_token_by_value (s : State) (user : Z) (password : string)
  : list Token.t :=
  List.filter (fun t => (Token.user_id t =? user)
                        && bool_decide (Token.saml_access_token t = Some password))%bool
              (auth_saml_token s).

Definition set_saml_access_token (v : option string) (t : Token.t) : Token.t :=
  Token.mk (Token.id t) (Token.user_id t) (Token.saml_provider_id t) v.

(** [token_ids.write({"saml_access_token": value})] *)
Definition token_write (token_ids : list Token.t) (value : string) : M unit :=
  modify (fun s =>
    set_tokens
      (map (fun t => if mem_Z (Token.id t) (map Token.id token_ids)
                     then set_saml_access_token (Some value) t else t)
           (auth_saml_token s))
      (token_seq s) s).

(** [token_osv.create({...})]: the new row takes the next id of the
    sequence and goes last. *)
Definition token_create (user provider : Z) (value : option string) : M Token.t :=
  fun s =>
    let t := Token.mk (token_seq s) user provider value in
    (set_tokens (auth_saml_token s ++ [t]) (token_seq s + 1) s, inr t).

(** Lines 221-233 of [_ensure_saml_token_exists]: a token without a value
    is created for [record] and [provider] unless the search finds one. *)
Definition ensure_token (record provider : Z) : M unit :=
  let* s := get in
  let token := search_token s record provider in
  if nonempty token then ret tt
  else token_create record provider None;; ret tt.

(** The lambda of line 219: the record has SAML ids. *)
Definition has_saml_ids (r : Z) : M bool :=
  let* links := saml_ids r in
  ret (nonempty links).

(** [_ensure_saml_token_exists], lines 215-233. *)
Definition _ensure_saml_token_exists (self : list Z) : M unit :=
  let* with_saml := filtered has_saml_ids self in
  for_each (fun record =>
      let* links := saml_ids record in
      for_each (fun provider =>
          ensure_token record (SamlId.saml_provider_id provider))
        links)
    with_saml.

(** ** Password removal and [write] *)

Definition _autoremove_password_if_saml_gen_password (env : Env) : M pyval :=
  let* s := get in
  let new_password := PyFalse in
  if mem_string "password_security" (installed_modules s)
  then ret (PyStr (generate_password env))
  else ret new_password.

(** The fields of a row of [res.users] the model keeps, assigned from
    [vals]; [saml_ids] is written by [write_saml_ids]; other keys of [vals]
    concern fields outside the model. *)
Definition assign_fields (vals : gmap string pyval) (u : User.t) : User.t :=
  let u :=
    match vals !! "login" with
    | Some v => set_login (to_char v) u
    | None => u
    end in
  match vals !! "password" with
  | Some v => set_password (to_char v) u
  | None => u
  end.

(** The inherited [write] of a value of [saml_ids] (line 22), the
    One2many over [res.users.saml]: [False] removes the links of the
    records, commands are applied to the table for the record set, and
    another value is refused. *)
Definition write_saml_ids (v : pyval) (self : list Z) : M unit :=
  match v with
  | PyFalse =>
      modify (fun s =>
        set_links
          (List.filter (fun l => negb (mem_Z (SamlId.user_id l) self))
                       (res_users_saml s)) s)
  | PyCommands run => modify (fun s => set_links (run self (res_users_saml s)) s)
  | _ => raise (ValueError "Wrong value for res.users.saml_ids")
  end.

(** The inherited [write]: nothing to do on the empty record set;
    otherwise every record takes the values of [vals], the links are
    written when [vals] sets [saml_ids], then the inverse of [password]
    runs on the record set when [vals] sets it. *)
Definition super_write (vals : gmap string pyval) (self : list Z) : M bool :=
  match self with
  | [] => ret true
  | _ =>
      for_each (fun i => read_user i;; modify (update_users [i] (assign_fields vals)))
               self;;
      match vals !! "saml_ids" with
      | Some v => write_saml_ids v self
      | None => ret tt
      end;;
      match vals !! "password" with
      | Some _ => _set_password self
      | None => ret tt
      end;;
      ret true
  end.

(** [write], lines 193-197, with the call of [_autoremove_password_if_saml]
    left open; [write] and [_autoremove_password_if_saml] call each other. *)
Definition write_with (autoremove : Env -> list Z -> M unit)
    (env : Env) (vals : gmap string pyval) (self : list Z) : M bool :=
  let* result := super_write vals self in
  autoremove env self;;
  _ensure_saml_token_exists self;;
  ret result.

(** [env.context.get("auth_saml_no_autoremove_password")] as a condition. *)
Definition no_autoremove_password (env : Env) : bool :=
  match context env !! "auth_saml_no_autoremove_password" with
  | Some v => truthy v
  | None => false
  end.

(** [recs.with_context(auth_saml_no_autoremove_password=True)] *)
Definition with_no_autoremove_password (env : Env) : Env :=
  mkEnv (uid env) (<["auth_saml_no_autoremove_password" := PyTrue]> (context env))
        (dbname env) (generate_password env).

(** [write] under a context that carries the flag: there
    [_autoremove_password_if_saml] returns at its first test. *)
Definition write_no_autoremove : Env -> gmap string pyval -> list Z -> M bool :=
  write_with (fun _ _ => ret tt).

(** The lambda of line 173: the record is not the superuser, has SAML ids,
    and its password field reads non-empty. *)
Definition password_to_remove (rec : Z) : M bool :=
  if negb (rec =? SUPERUSER_ID) then
    let* links := saml_ids rec in
    if nonempty links then
      let* u := read_user rec in
      ret (char_truthy (User.password u))
    else ret false
  else ret false.

(** [_autoremove_password_if_saml], lines 166-179.  Its inner [write] runs
    under the flag it has just set. *)
Definition _autoremove_password_if_saml (env : Env) (self : list Z) : M unit :=
  if no_autoremove_password env then ret tt
  else
    let* allow := _allow_saml_and_password in
    if allow then ret tt
    else
      let* to_remove_password := filtered password_to_remove self in
      if nonempty to_remove_password then
        let* new_password := _autoremove_password_if_saml_gen_password env in
        write_no_autoremove (with_no_autoremove_password env)
          {[ "password" := new_password ]} to_remove_password;;
        ret tt
      else ret tt.

Definition write : Env -> gmap string pyval -> list Z -> M bool :=
  write_with _autoremove_password_if_saml.

(** ** Sign-in *)

(** The result of the provider's validation: [user_id] is [None] when the
    key is absent; [mapped_attrs] is empty when the key is absent. *)
Record validation := mkValidation {
  user_id : option string;
  mapped_attrs : gmap string pyval
}.

(** The rows of [res.users.saml] that satisfy the domain
    [[("saml_uid", "=", saml_uid), ("saml_provider_id", "=", provider)]]. *)
Definition saml_matches (s : State) (saml_uid : string) (provider : Z)
  : list SamlId.t :=
  List.filter (fun l => (String.eqb (SamlId.saml_uid l) saml_uid)
                        && (SamlId.saml_provider_id l =? provider))%bool
              (res_users_saml s).

(** [search(domain, limit=limit)] *)
Definition search_saml (s : State) (saml_uid : string) (provider : Z) (limit : nat)
  : list SamlId.t :=
  firstn limit (saml_matches s saml_uid provider).

(** [links.user_id]: the users of the links, each once, in the order of
    their first link. *)
Fixpoint mapped_user_id (links : list SamlId.t) : list Z :=
  match links with
  | [] => []
  | l :: rest =>
      SamlId.user_id l
        :: List.filter (fun i => negb (i =? SamlId.user_id l)) (mapped_user_id rest)
  end.

Definition is_empty_dict (d : gmap string pyval) : bool :=
  match map_to_list d with
  | [] => true
  | _ => false
  end.

Section Collaborators.

(** [provider._validate_auth_response(token, base_url)] of
    [auth.saml.provider]: it reads the database and returns the
    validation or raises. *)
Variable _validate_auth_response :
  State -> Z -> string -> option string -> exn + validation.

(** The inherited [_check_credentials(password, env)]. *)
Variable super_check_credentials :
  list Z -> string -> gmap string pyval -> M unit.

(** The inherited [create(vals_list)]. *)
Variable super_create : list (gmap string pyval) -> M (list Z).

Definition _auth_saml_validate (provider_id : Z) (token : string)
    (base_url : option string) : M validation :=
  let* s := get in
  lift (_validate_auth_response s provider_id token base_url).

(** Lines 100-115 of [_auth_saml_signin]: the token of the user and the
    provider takes the response as its value. *)
Definition signin_token_sync (user provider : Z) (saml_response : string)
  : M unit :=
  let* s := get in
  let token_ids := search_token s user provider in
  if nonempty token_ids then token_write token_ids saml_response
  else
    modify (log_info "Creating auth_saml.token");;
    token_create user provider (Some saml_response);;
    ret tt.

(** Lines 100-120 of [_auth_saml_signin], once [user] is known. *)
Definition signin_user (env : Env) (provider : Z) (validation : validation)
    (saml_response : string) (user : Z) : M (option string) :=
  signin_token_sync user provider saml_response;;
  (if negb (is_empty_dict (mapped_attrs validation))
   then write env (mapped_attrs validation) [user];; ret tt
   else ret tt);;
  let* u := read_user user in
  ret (User.login u).

(** [_auth_saml_signin], lines 76-120. *)
Definition _auth_saml_signin (env : Env) (provider : Z) (validation : validation)
    (saml_response : string) : M (option string) :=
  let* saml_uid :=
    match user_id validation with
    | Some u => ret u
    | None => raise (KeyError "user_id")
    end in
  let* s := get in
  let user := mapped_user_id (search_saml s saml_uid provider 1) in
  match user with
  | [user] => signin_user env provider validation saml_response user
  | _ => raise AccessDenied
  end.

(** [auth_saml], lines 122-137. *)
Definition auth_saml (env : Env) (provider : Z) (saml_response : string)
    (base_url : option string) : M (string * string * string) :=
  let* validation := _auth_saml_validate provider saml_response base_url in
  if negb (char_truthy (user_id validation)) then raise AccessDenied
  else
    let* login := _auth_saml_signin env provider validation saml_response in
    if negb (char_truthy login) then raise AccessDenied
    else ret (dbname env, default "" login, saml_response).

(** [_check_credentials], lines 139-164. *)
Definition _check_credentials (env : Env) (self : list Z) (password : string)
    (user_agent_env : gmap string pyval) : M unit :=
  fun s =>
    match super_check_credentials self password user_agent_env s with
    | (s', inr r) => (s', inr r)
    | (s', inl e) =>
        if caught_by_check_credentials e then
          let token := search_token_by_value s' (uid env) password in
          if negb (nonempty token) then (s', inl AccessDenied)
          else (s', inr tt)
        else (s', inl e)
    end.

(** [create], lines 199-204. *)
Definition create (env : Env) (vals_list : list (gmap string pyval))
  : M (list Z) :=
  let* result := super_create vals_list in
  _autoremove_password_if_saml env result;;
  _ensure_saml_token_exists result;;
  ret result.

End Collaborators.

(** ** Sample databases

    Provider 7 knows alice (user 5) under the subject "abc"; the default
    administrator is user 2.  In [admin], [alice] and [bob] the password
    field holds a value, as it does from an assignment until the inverse
    has run; in [root] and the [_stored] rows it reads [''], as it does
    once a password has been written. *)

Module Sample.

Definition admin : User.t :=
  User.mk 2 (Some "admin") (Some "adminpw") (Some (Crypt "adminpw")).

Definition alice : User.t :=
  User.mk 5 (Some "alice") (Some "pw") (Some (Crypt "pw")).

Definition bob : User.t :=
  User.mk 6 (Some "bob") (Some "pw2") (Some (Crypt "pw2")).

Definition root : User.t :=
  User.mk 1 (Some "__system__") (Some "") (Some (Crypt "rootpw")).

Definition admin_stored : User.t :=
  User.mk 2 (Some "admin") (Some "") (Some (Crypt "adminpw")).

Definition alice_stored : User.t :=
  User.mk 5 (Some "alice") (Some "") (Some (Crypt "pw")).

Definition bob_stored : User.t :=
  User.mk 6 (Some "bob") (Some "") (Some (Crypt "pw2")).

Definition links : list SamlId.t :=
  [SamlId.mk 1 5 7 "abc"; SamlId.mk 2 2 7 "adm"; SamlId.mk 3 6 7 "bcd"].

(** No token yet, no configuration parameter, no extra module. *)
Definition db : State :=
  mkState [admin; alice; bob] links [] 1 ∅ (Some 2) [] [].

(** The same with a token of alice for provider 7. *)
Definition db_token : State :=
  mkState [admin; alice; bob] links [Token.mk 1 5 7 (Some "old")] 2 ∅ (Some 2) [] [].

(** The subject "abc" of provider 7 linked twice, to alice and to bob. *)
Definition db_ambiguous : State :=
  mkState [admin; alice; bob]
          [SamlId.mk 1 5 7 "abc"; SamlId.mk 2 2 7 "adm"; SamlId.mk 3 6 7 "abc"]
          [] 1 ∅ (Some 2) [] [].

(** No link at all. *)
Definition db_unlinked : State :=
  mkState [admin; alice; bob] [] [] 1 ∅ (Some 2) [] [].

(** [password_security] installed. *)
Definition db_password_security : State :=
  mkState [admin; alice; bob] links [] 1 ∅ (Some 2) ["password_security"] [].

(** The passwords stored, every password field reading ['']. *)
Definition db_stored : State :=
  mkState [admin_stored; alice_stored; bob_stored] links [] 1 ∅ (Some 2) [] [].

(** The superuser and the administrator, each with a SAML id. *)
Definition db_exempt : State :=
  mkState [root; admin_stored] [SamlId.mk 1 1 7 "sys"; SamlId.mk 2 2 7 "adm"]
          [] 1 ∅ (Some 2) [] [].

Definition env : Env := mkEnv 5 ∅ "db" "0123456789abcdefghijklmn".

Definition env_no_autoremove : Env := with_no_autoremove_password env.

(** A validator that accepts every response as the subject "abc". *)
Definition validate (_ : State) (_ : Z) (_ : string) (_ : option string)
  : exn + validation :=
  inr (mkValidation (Some "abc") ∅).

(** An inherited credential check that denies everything. *)
Definition deny (_ : list Z) (_ : string) (_ : gmap string pyval) : M unit :=
  raise AccessDenied.

End Sample.

(** * Vocabulary of the properties *)

(** [keeps R m]: whatever [m] does, returning or raising, the state it
    leaves is related by [R] to the state it started from. *)
Definition keeps (R : State -> State -> Prop) {A} (m : M A) : Prop :=
  forall s, R s (fst (m s)).

(** The tokens of a user and a provider in a token table, as [search_token]
    finds them. *)
Definition pair_tokens (ts : list Token.t) (user provider : Z) : list Token.t :=
  List.filter (fun t => (Token.saml_provider_id t =? provider)
                        && (Token.user_id t =? user))%bool ts.

(** [backfill ts ts']: [ts'] is [ts] followed by placeholder tokens (no
    value), each one added for a user and a provider that had no token at
    that point. *)
Inductive backfill : list Token.t -> list Token.t -> Prop :=
| backfill_refl ts : backfill ts ts
| backfill_step ts ts' t :
    backfill ts ts' ->
    Token.saml_access_token t = None ->
    pair_tokens ts' (Token.user_id t) (Token.saml_provider_id t) = [] ->
    backfill ts (ts' ++ [t]).

(** The settings no method of the class writes. *)
Definition stable (s s' : State) : Prop :=
  ir_config_parameter s' = ir_config_parameter s
  /\ base_user_admin s' = base_user_admin s
  /\ installed_modules s' = installed_modules s.

(** The frame of [write], [create] and their hooks: nothing is logged, and
    the token table only grows by placeholders. *)
Definition backfilled (s s' : State) : Prop :=
  backfill (auth_saml_token s) (auth_saml_token s')
  /\ logger s' = logger s
  /\ stable s s'.

(** The rows [_ensure_saml_token_exists] reads and never writes. *)
Definition same_rows (s s' : State) : Prop :=
  res_users s' = res_users s /\ res_users_saml s' = res_users_saml s.

(** The user and the provider have a token. *)
Definition has_token (s : State) (user provider : Z) : Prop :=
  search_token s user provider <> [].

(** Every link of every record of [recs] has its token. *)
Definition covered (s : State) (recs : list Z) : Prop :=
  forall r l, In r recs -> In l (saml_ids_of s r) ->
              has_token s r (SamlId.saml_provider_id l).

(** The inner loop, over the links of one record. *)
Definition ensure_links (record : Z) (links : list SamlId.t) : M unit :=
  for_each (fun provider => ensure_token record (SamlId.saml_provider_id provider))
           links.

(** The outer loop, over the records that have links. *)
Definition ensure_records (recs : list Z) : M unit :=
  for_each (fun record =>
      let* links := saml_ids record in
      ensure_links record links) recs.

(** Every record of [recs] has its row in [res.users]. *)
Definition all_exist (s : State) (recs : list Z) : Prop :=
  forall r, In r recs -> find_user s r <> None.

(** The first line of [_ensure_saml_token_exists] keeps the records that
    have links; it reads rows only. *)
Definition with_saml_ids (self : list Z) : M (list Z) :=
  filtered has_saml_ids self.

(** At most one token for every user and provider. *)
Definition at_most_one_token (s : State) : Prop :=
  forall user provider, (length (search_token s user provider) <= 1)%nat.

(** The state after a series of calls of [auth_saml], each one with its
    environment, provider, response and base URL; a call that raises
    leaves the state it had reached. *)
Fixpoint sign_ins
    (validate : State -> Z -> string -> option string -> exn + validation)
    (calls : list (Env * Z * string * option string)) (s : State) : State :=
  match calls with
  | [] => s
  | (env, provider, saml_response, base_url) :: rest =>
      sign_ins validate rest
               (fst (auth_saml validate env provider saml_response base_url s))
  end.

(** What identifies a token row apart from its value. *)
Definition token_key (t : Token.t) : Z * Z * Z :=
  (Token.id t, Token.user_id t, Token.saml_provider_id t).

(** What [token_write] does to one row. *)
Definition overwrite (ids : list Z) (value : string) (t : Token.t) : Token.t :=
  if mem_Z (Token.id t) ids then set_saml_access_token (Some value) t else t.

(** The rows of [res.users] whose id is outside [ids] are as they were. *)
Definition untouched_outside (ids : list Z) (s s' : State) : Prop :=
  forall j, ~ In j ids -> find_user s' j = find_user s j.

(** The table [res.users] is as it was. *)
Definition same_users (s s' : State) : Prop := res_users s' = res_users s.

(** The state is as it was. *)
Definition unchanged (s s' : State) : Prop := s' = s.

(** The tables of tokens and of links are as they were. *)
Definition same_tokens (s s' : State) : Prop :=
  auth_saml_token s' = auth_saml_token s
  /\ res_users_saml s' = res_users_saml s.

(** The table of tokens is as it was. *)
Definition tokens_as_before (s s' : State) : Prop :=
  auth_saml_token s' = auth_saml_token s.

(** A token without a value, for a user of [self] and a provider that
    user is linked to in [s]. *)
Definition placeholder_for (s : State) (self : list Z) (t : Token.t) : Prop :=
  Token.saml_access_token t = None
  /\ In (Token.user_id t) self
  /\ exists l, In l (saml_ids_of s (Token.user_id t))
               /\ SamlId.saml_provider_id l = Token.saml_provider_id t.

(** The links are as they were and the token table has grown by
    placeholders for [self]. *)
Definition backfilled_for (self : list Z) (s s' : State) : Prop :=
  res_users_saml s' = res_users_saml s
  /\ exists extra, auth_saml_token s' = auth_saml_token s ++ extra
                   /\ Forall (placeholder_for s self) extra.

(** Every row of [res.users] has the password field and the password
    column it had. *)
Definition same_passwords (s s' : State) : Prop :=
  forall j,
    ((fun u => (User.password u, User.password_column u)) <$> find_user s' j)
    = ((fun u => (User.password u, User.password_column u)) <$> find_user s j).

(** What [_set_password] leaves of a row: the hash of the password value in
    the column, or NULL for the value [False], and the field reading ['']. *)
Definition stored (u : User.t) : User.t :=
  set_password (Some "") (set_password_column (Crypt <$> User.password u) u).

(** * Properties *)

Ltac unfold_M :=
  unfold bind, ret, raise, get, modify, lift in *.

(** ** Configuration default *)

(** C10: when [auth_saml.allow_saml_uid_and_internal_password] is absent
    from the configuration parameters, [_allow_saml_and_password] returns
    [False]: coexistence of a password and a SAML id is disallowed by
    default. *)
Theorem allow_saml_and_password_absent (s : State) :
  ir_config_parameter s !! "auth_saml.allow_saml_uid_and_internal_password" = None ->
  _allow_saml_and_password s = (s, inr false).
Proof.
  intros Habsent.
  unfold _allow_saml_and_password, get_param. unfold_M.
  rewrite Habsent. reflexivity.
Qed.

Lemma allow_saml_and_password_absent_witness :
  ir_config_parameter Sample.db
    !! "auth_saml.allow_saml_uid_and_internal_password" = None
  /\ _allow_saml_and_password Sample.db = (Sample.db, inr false).
Proof.
  split; [reflexivity | apply (allow_saml_and_password_absent Sample.db); reflexivity].
Defined.

(** ** The credential check *)

Lemma search_token_by_value_nonempty (s : State) (user : Z) (password : string) :
  nonempty (search_token_by_value s user password) = true <->
  exists t, In t (auth_saml_token s)
            /\ Token.user_id t = user
            /\ Token.saml_access_token t = Some password.
Proof.
  unfold search_token_by_value. split.
  - destruct (List.filter _ _) as [|t ts] eqn:Hf; [discriminate|]. intros _.
    assert (Hin : In t (List.filter
      (fun t => (Token.user_id t =? user)
                && bool_decide (Token.saml_access_token t = Some password))%bool
      (auth_saml_token s))) by (rewrite Hf; left; reflexivity).
    apply filter_In in Hin. destruct Hin as [Hin Hp].
    apply andb_true_iff in Hp. destruct Hp as [Hu Hv].
    exists t. split; [exact Hin|]. split; [lia|].
    apply bool_decide_eq_true in Hv. exact Hv.
  - intros (t & Hin & Hu & Hv).
    assert (Hf : In t (List.filter
      (fun t => (Token.user_id t =? user)
                && bool_decide (Token.saml_access_token t = Some password))%bool
      (auth_saml_token s))).
    { apply filter_In. split; [exact Hin|]. apply andb_true_iff. split; [lia|].
      apply bool_decide_eq_true. exact Hv. }
    destruct (List.filter _ _); [destruct Hf | reflexivity].
Qed.

(** C9: [_check_credentials] returns what the inherited check returns when
    that succeeds; when it raises [AccessDenied] or [PasswordSizeError], the
    check succeeds exactly if a token of the session's user holds the
    presented secret as its value, and raises [AccessDenied] otherwise; any
    other exception of the inherited check goes through unchanged. *)
Theorem check_credentials_fallback
    (super_check : list Z -> string -> gmap string pyval -> M unit)
    (env : Env) (self : list Z) (password : string)
    (user_agent_env : gmap string pyval) (s s' : State) (r : exn + unit) :
  super_check self password user_agent_env s = (s', r) ->
  let has_token :=
    exists t, In t (auth_saml_token s')
              /\ Token.user_id t = uid env
              /\ Token.saml_access_token t = Some password in
  let result := _check_credentials super_check env self password user_agent_env s in
  (r = inr tt -> result = (s', inr tt))
  /\ (r = inl AccessDenied \/ r = inl PasswordSizeError ->
      (has_token -> result = (s', inr tt))
      /\ (~ has_token -> result = (s', inl AccessDenied)))
  /\ (forall e, r = inl e -> e <> AccessDenied -> e <> PasswordSizeError ->
      result = (s', inl e)).
Proof.
  intros Hsuper has_token result.
  subst result. unfold _check_credentials. rewrite Hsuper.
  pose proof (search_token_by_value_nonempty s' (uid env) password) as Hsearch.
  fold has_token in Hsearch.
  split; [|split].
  - intros ->. reflexivity.
  - intros Hr.
    assert (Hcaught : exists e, r = inl e /\ caught_by_check_credentials e = true).
    { destruct Hr as [-> | ->]; eexists; split; reflexivity. }
    destruct Hcaught as (e & -> & Hc). rewrite Hc. split.
    + intros Hhas. apply Hsearch in Hhas. rewrite Hhas. reflexivity.
    + intros Hnot.
      destruct (nonempty (search_token_by_value s' (uid env) password)) eqn:Hn.
      * exfalso. apply Hnot, Hsearch. reflexivity.
      * reflexivity.
  - intros e -> Hne1 Hne2.
    destruct e; try reflexivity; congruence.
Qed.

Lemma check_credentials_fallback_witness :
  Sample.deny [5] "old" ∅ Sample.db_token = (Sample.db_token, inl AccessDenied)
  /\ _check_credentials Sample.deny Sample.env [5] "old" ∅ Sample.db_token
     = (Sample.db_token, inr tt)
  /\ _check_credentials Sample.deny Sample.env [5] "stale" ∅ Sample.db_token
     = (Sample.db_token, inl AccessDenied).
Proof.
  split; [reflexivity|].
  destruct (check_credentials_fallback Sample.deny Sample.env [5] "old" ∅
              Sample.db_token Sample.db_token (inl AccessDenied) eq_refl)
    as (_ & Hold & _).
  destruct (check_credentials_fallback Sample.deny Sample.env [5] "stale" ∅
              Sample.db_token Sample.db_token (inl AccessDenied) eq_refl)
    as (_ & Hstale & _).
  split.
  - apply Hold; [left; reflexivity|].
    exists (Token.mk 1 5 7 (Some "old")). repeat split. left. reflexivity.
  - apply Hstale; [left; reflexivity|].
    intros (t & [<- | []] & _ & Hvalue). discriminate.
Defined.

(** ** What a method leaves in place *)

Section Frame.

Variable R : State -> State -> Prop.
Hypothesis R_refl : forall s, R s s.
Hypothesis R_trans : forall a b c, R a b -> R b c -> R a c.

Lemma keeps_ret {A} (a : A) : keeps R (ret a).
Proof. intros s. apply R_refl. Qed.

Lemma keeps_raise {A} (e : exn) : keeps R (@raise A e).
Proof. intros s. apply R_refl. Qed.

Lemma keeps_get : keeps R get.
Proof. intros s. apply R_refl. Qed.

Lemma keeps_lift {A} (r : exn + A) : keeps R (lift r).
Proof. intros s. apply R_refl. Qed.

Lemma keeps_modify (f : State -> State) :
  (forall s, R s (f s)) -> keeps R (modify f).
Proof. intros Hf s. apply Hf. Qed.

Lemma keeps_bind {A B} (m : M A) (k : A -> M B) :
  keeps R m -> (forall a, keeps R (k a)) -> keeps R (bind m k).
Proof.
  intros Hm Hk s. unfold bind.
  specialize (Hm s). destruct (m s) as [s' [e | a]]; simpl in *.
  - exact Hm.
  - eapply R_trans; [exact Hm | apply Hk].
Qed.

Lemma keeps_filtered {A} (p : A -> M bool) (recs : list A) :
  (forall r, keeps R (p r)) -> keeps R (filtered p recs).
Proof.
  intros Hp. induction recs as [|r rest IH]; simpl.
  - apply keeps_ret.
  - apply keeps_bind; [apply Hp|]. intros keep.
    apply keeps_bind; [exact IH|]. intros kept. apply keeps_ret.
Qed.

Lemma keeps_for_each {A} (body : A -> M unit) (recs : list A) :
  (forall r, keeps R (body r)) -> keeps R (for_each body recs).
Proof.
  intros Hb. induction recs as [|r rest IH]; simpl.
  - apply keeps_ret.
  - apply keeps_bind; [apply Hb|]. intros _. exact IH.
Qed.

End Frame.

(** ** Placeholder tokens *)

Lemma backfill_trans (a b c : list Token.t) :
  backfill a b -> backfill b c -> backfill a c.
Proof.
  intros Hab Hbc. induction Hbc as [|b c t Hbc IH Hnone Hfree].
  - exact Hab.
  - apply backfill_step; auto.
Qed.

Lemma pair_tokens_app (ts1 ts2 : list Token.t) (u p : Z) :
  pair_tokens (ts1 ++ ts2) u p = pair_tokens ts1 u p ++ pair_tokens ts2 u p.
Proof. unfold pair_tokens. apply List.filter_app. Qed.

Lemma backfill_appended (ts ts' : list Token.t) :
  backfill ts ts' ->
  exists extra, ts' = ts ++ extra
                /\ Forall (fun t => Token.saml_access_token t = None) extra.
Proof.
  induction 1 as [ts | ts ts' t _ (extra & -> & Hall) Hnone _].
  - exists []. split; [symmetry; apply app_nil_r | constructor].
  - exists (extra ++ [t]). split; [symmetry; apply app_assoc|].
    apply Forall_app. split; [exact Hall | constructor; [exact Hnone | constructor]].
Qed.

(** A pair that has a token keeps exactly its tokens. *)
Lemma backfill_pair_kept (ts ts' : list Token.t) (u p : Z) :
  backfill ts ts' -> pair_tokens ts u p <> [] ->
  pair_tokens ts' u p = pair_tokens ts u p.
Proof.
  intros Hb Hsome. induction Hb as [ts | ts ts' t Hb IH Hnone Hfree].
  - reflexivity.
  - specialize (IH Hsome). rewrite pair_tokens_app, IH.
    unfold pair_tokens at 2. simpl.
    destruct ((Token.saml_provider_id t =? p) && (Token.user_id t =? u))%bool eqn:Hp.
    + apply andb_true_iff in Hp. destruct Hp as [Hp Hu].
      apply Z.eqb_eq in Hp, Hu. subst u p. rewrite Hfree in IH.
      exfalso. apply Hsome. symmetry. exact IH.
    + apply app_nil_r.
Qed.

(** A pair with at most one token has at most one afterwards. *)
Lemma backfill_at_most_one (ts ts' : list Token.t) (u p : Z) :
  backfill ts ts' ->
  (length (pair_tokens ts u p) <= 1)%nat ->
  (length (pair_tokens ts' u p) <= 1)%nat.
Proof.
  intros Hb Hle. induction Hb as [ts | ts ts' t Hb IH Hnone Hfree].
  - exact Hle.
  - specialize (IH Hle). rewrite pair_tokens_app, length_app.
    unfold pair_tokens at 2. simpl.
    destruct ((Token.saml_provider_id t =? p) && (Token.user_id t =? u))%bool eqn:Hp.
    + apply andb_true_iff in Hp. destruct Hp as [Hp Hu].
      apply Z.eqb_eq in Hp, Hu. subst u p. rewrite Hfree. simpl. lia.
    + simpl. lia.
Qed.

Lemma backfilled_refl (s : State) : backfilled s s.
Proof. repeat split; constructor. Qed.

Lemma backfilled_trans (a b c : State) :
  backfilled a b -> backfilled b c -> backfilled a c.
Proof.
  intros (Hb1 & Hl1 & Hc1 & Ha1 & Hm1) (Hb2 & Hl2 & Hc2 & Ha2 & Hm2).
  repeat split; try congruence. eapply backfill_trans; eassumption.
Qed.

Create HintDb frame.

Ltac keeps_backfilled :=
  repeat (first
    [ exact backfilled_refl
    | exact backfilled_trans
    | solve [auto 2 with frame]
    | apply keeps_bind
    | apply keeps_ret
    | apply keeps_raise
    | apply keeps_get
    | apply keeps_lift
    | apply keeps_filtered
    | apply keeps_for_each
    | match goal with
      | |- forall _, _ => intros ?
      | |- keeps _ (if ?b then _ else _) => destruct b
      | |- keeps _ (match ?x with _ => _ end) => destruct x
      end ]).

Lemma update_users_backfilled (ids : list Z) (f : User.t -> User.t) (s : State) :
  backfilled s (update_users ids f s).
Proof. repeat split; constructor. Qed.

Lemma modify_users_backfilled (ids : list Z) (f : User.t -> User.t) :
  keeps backfilled (modify (update_users ids f)).
Proof. apply keeps_modify. apply update_users_backfilled. Qed.

#[local] Hint Resolve modify_users_backfilled : frame.

Lemma invalidate_cache_password_backfilled (ids : list Z) :
  keeps backfilled (invalidate_cache_password ids).
Proof. apply modify_users_backfilled. Qed.

#[local] Hint Resolve invalidate_cache_password_backfilled : frame.

Lemma write_saml_ids_backfilled (v : pyval) (self : list Z) :
  keeps backfilled (write_saml_ids v self).
Proof.
  destruct v; simpl;
    first [ apply keeps_raise, backfilled_refl
          | apply keeps_modify; intros s; repeat split; constructor ].
Qed.

#[local] Hint Resolve write_saml_ids_backfilled : frame.

Lemma read_user_backfilled (i : Z) : keeps backfilled (read_user i).
Proof. unfold read_user. keeps_backfilled. Qed.

#[local] Hint Resolve read_user_backfilled : frame.

Lemma saml_ids_backfilled (i : Z) : keeps backfilled (saml_ids i).
Proof. unfold saml_ids. keeps_backfilled. Qed.

#[local] Hint Resolve saml_ids_backfilled : frame.

Lemma mapped_login_backfilled (recs : list Z) : keeps backfilled (mapped_login recs).
Proof. induction recs as [|r rest IH]; simpl; keeps_backfilled. Qed.

#[local] Hint Resolve mapped_login_backfilled : frame.

Lemma allow_saml_and_password_backfilled : keeps backfilled _allow_saml_and_password.
Proof. unfold _allow_saml_and_password. keeps_backfilled. Qed.

#[local] Hint Resolve allow_saml_and_password_backfilled : frame.

Lemma super_set_password_backfilled (self : list Z) :
  keeps backfilled (super_set_password self).
Proof. unfold super_set_password. keeps_backfilled. Qed.

#[local] Hint Resolve super_set_password_backfilled : frame.

Lemma set_password_backfilled (self : list Z) : keeps backfilled (_set_password self).
Proof. unfold _set_password. keeps_backfilled. Qed.

#[local] Hint Resolve set_password_backfilled : frame.

Lemma super_write_backfilled (vals : gmap string pyval) (self : list Z) :
  keeps backfilled (super_write vals self).
Proof. unfold super_write. keeps_backfilled. Qed.

#[local] Hint Resolve super_write_backfilled : frame.

Lemma search_token_pair_tokens (s : State) (u p : Z) :
  search_token s u p = pair_tokens (auth_saml_token s) u p.
Proof. reflexivity. Qed.

Lemma ensure_token_backfilled (record provider : Z) :
  keeps backfilled (ensure_token record provider).
Proof.
  intros s. unfold ensure_token. unfold_M. simpl.
  destruct (search_token s record provider) eqn:Hsearch; simpl.
  - repeat split. apply backfill_step; [constructor | reflexivity | exact Hsearch].
  - apply backfilled_refl.
Qed.

#[local] Hint Resolve ensure_token_backfilled : frame.

Lemma ensure_saml_token_exists_backfilled (self : list Z) :
  keeps backfilled (_ensure_saml_token_exists self).
Proof. unfold _ensure_saml_token_exists. keeps_backfilled. Qed.

#[local] Hint Resolve ensure_saml_token_exists_backfilled : frame.

Lemma write_with_backfilled (autoremove : Env -> list Z -> M unit)
    (env : Env) (vals : gmap string pyval) (self : list Z) :
  (forall e recs, keeps backfilled (autoremove e recs)) ->
  keeps backfilled (write_with autoremove env vals self).
Proof. intros Hauto. unfold write_with. keeps_backfilled. Qed.

Lemma write_no_autoremove_backfilled (env : Env) (vals : gmap string pyval)
    (self : list Z) :
  keeps backfilled (write_no_autoremove env vals self).
Proof.
  apply write_with_backfilled. intros e recs. apply keeps_ret, backfilled_refl.
Qed.

#[local] Hint Resolve write_no_autoremove_backfilled : frame.

Lemma password_to_remove_backfilled (rec : Z) :
  keeps backfilled (password_to_remove rec).
Proof. unfold password_to_remove. keeps_backfilled. Qed.

#[local] Hint Resolve password_to_remove_backfilled : frame.

Lemma autoremove_password_if_saml_backfilled (env : Env) (self : list Z) :
  keeps backfilled (_autoremove_password_if_saml env self).
Proof.
  unfold _autoremove_password_if_saml, _autoremove_password_if_saml_gen_password.
  keeps_backfilled.
Qed.

#[local] Hint Resolve autoremove_password_if_saml_backfilled : frame.

Lemma write_backfilled (env : Env) (vals : gmap string pyval) (self : list Z) :
  keeps backfilled (write env vals self).
Proof. apply write_with_backfilled. auto with frame. Qed.

#[local] Hint Resolve write_backfilled : frame.

(** The hooks of [create] add placeholder tokens at most, as those of
    [write] do. *)
Lemma create_backfilled
    (super_create : list (gmap string pyval) -> M (list Z))
    (env : Env) (vals_list : list (gmap string pyval)) :
  keeps backfilled (super_create vals_list) ->
  keeps backfilled (create super_create env vals_list).
Proof. intros Hsuper. unfold create. keeps_backfilled. Qed.

(** ** Resolution of the subject *)

Lemma mapped_user_id_first (l : SamlId.t) (rest : list SamlId.t) :
  mapped_user_id (firstn 1 (l :: rest)) = [SamlId.user_id l].
Proof. reflexivity. Qed.

Lemma signin_no_match (env : Env) (provider : Z) (v : validation)
    (saml_response uid : string) (s : State) :
  user_id v = Some uid ->
  saml_matches s uid provider = [] ->
  _auth_saml_signin env provider v saml_response s = (s, inl AccessDenied).
Proof.
  intros Huid Hnone. unfold _auth_saml_signin, search_saml. rewrite Huid.
  unfold_M. rewrite Hnone. reflexivity.
Qed.

Lemma signin_first_match (env : Env) (provider : Z) (v : validation)
    (saml_response uid : string) (s : State) (l : SamlId.t) (rest : list SamlId.t) :
  user_id v = Some uid ->
  saml_matches s uid provider = l :: rest ->
  _auth_saml_signin env provider v saml_response s
  = signin_user env provider v saml_response (SamlId.user_id l) s.
Proof.
  intros Huid Hsome. unfold _auth_saml_signin, search_saml. rewrite Huid.
  unfold_M. rewrite Hsome. reflexivity.
Qed.

Lemma signin_token_sync_returns (user provider : Z) (saml_response : string)
    (s : State) :
  snd (signin_token_sync user provider saml_response s) = inr tt.
Proof.
  unfold signin_token_sync, token_write, token_create. unfold_M.
  destruct (nonempty (search_token s user provider)); reflexivity.
Qed.

Lemma signin_token_sync_logger (user provider : Z) (saml_response : string)
    (s : State) :
  let s' := fst (signin_token_sync user provider saml_response s) in
  (search_token s user provider <> [] -> logger s' = logger s)
  /\ (search_token s user provider = [] ->
      logger s' = logger s ++ ["Creating auth_saml.token"]).
Proof.
  unfold signin_token_sync, token_write, token_create. unfold_M.
  destruct (search_token s user provider) eqn:Hsearch; simpl; split; congruence.
Qed.

(** After the token step, [signin_user] only writes the attributes and
    reads the login. *)
Lemma signin_user_backfilled (env : Env) (provider : Z) (v : validation)
    (saml_response : string) (user : Z) (s : State) :
  backfilled (fst (signin_token_sync user provider saml_response s))
             (fst (signin_user env provider v saml_response user s)).
Proof.
  unfold signin_user. unfold bind at 1.
  pose proof (signin_token_sync_returns user provider saml_response s) as Hret.
  destruct (signin_token_sync user provider saml_response s) as [s1 r].
  simpl in Hret. subst r. simpl.
  assert (Hk : keeps backfilled
    ((if negb (is_empty_dict (mapped_attrs v))
      then write env (mapped_attrs v) [user];; ret tt
      else ret tt);;
     let* u := read_user user in ret (User.login u))) by keeps_backfilled.
  apply Hk.
Qed.

(** C1, as the code has it: the search for the subject stops at the first
    matching link.  With no match the sign-in is denied and nothing is
    written; with one match or more it goes on as the user of the first
    match, and what it logs is at most the line that announces a new
    token, whatever the number of matches. *)
Theorem signin_resolves_first_match (env : Env) (provider : Z) (v : validation)
    (saml_response uid : string) (s : State) :
  user_id v = Some uid ->
  let run := _auth_saml_signin env provider v saml_response s in
  (saml_matches s uid provider = [] -> run = (s, inl AccessDenied))
  /\ (forall l rest, saml_matches s uid provider = l :: rest ->
      run = signin_user env provider v saml_response (SamlId.user_id l) s
      /\ (logger (fst run) = logger s
          \/ logger (fst run) = logger s ++ ["Creating auth_saml.token"])).
Proof.
  intros Huid run. subst run. split.
  - intros Hnone. eapply signin_no_match; eassumption.
  - intros l rest Hsome.
    rewrite (signin_first_match env provider v saml_response uid s l rest Huid Hsome).
    split; [reflexivity|].
    destruct (signin_user_backfilled env provider v saml_response (SamlId.user_id l) s)
      as (_ & Hlog & _).
    rewrite Hlog.
    destruct (signin_token_sync_logger (SamlId.user_id l) provider saml_response s)
      as [Hsame Hnew].
    destruct (search_token s (SamlId.user_id l) provider) eqn:Hsearch.
    + right. apply Hnew. reflexivity.
    + left. apply Hsame. discriminate.
Qed.

Lemma signin_resolves_first_match_witness :
  user_id (mkValidation (Some "abc") ∅) = Some "abc"
  /\ saml_matches Sample.db "abc" 7 = [SamlId.mk 1 5 7 "abc"]
  /\ _auth_saml_signin Sample.env 7 (mkValidation (Some "abc") ∅) "blob" Sample.db
     = signin_user Sample.env 7 (mkValidation (Some "abc") ∅) "blob" 5 Sample.db.
Proof.
  split; [reflexivity|]. split; [reflexivity|].
  destruct (signin_resolves_first_match Sample.env 7 (mkValidation (Some "abc") ∅)
              "blob" "abc" Sample.db eq_refl) as [_ Hfirst].
  destruct (Hfirst (SamlId.mk 1 5 7 "abc") [] eq_refl) as [Hrun _].
  exact Hrun.
Defined.

(** C1, as the claim has it, fails: with the subject "abc" of provider 7
    linked to two users, the sign-in returns the login of the first one,
    and the log is the one of the sign-in with a single link. *)
Lemma signin_ambiguous_subject_signs_in :
  let v := mkValidation (Some "abc") ∅ in
  length (saml_matches Sample.db_ambiguous "abc" 7) = 2%nat
  /\ snd (_auth_saml_signin Sample.env 7 v "blob" Sample.db_ambiguous)
     = inr (Some "alice")
  /\ logger (fst (_auth_saml_signin Sample.env 7 v "blob" Sample.db_ambiguous))
     = logger (fst (_auth_saml_signin Sample.env 7 v "blob" Sample.db)).
Proof. vm_compute. repeat split. Qed.

(** C8: when the validated subject has no link for the provider,
    [auth_saml] raises [AccessDenied] and leaves the state, and so the
    token table, as it found it. *)
Theorem auth_saml_unknown_subject
    (validate : State -> Z -> string -> option string -> exn + validation)
    (env : Env) (provider : Z) (saml_response : string) (base_url : option string)
    (s : State) (v : validation) (uid : string) :
  validate s provider saml_response base_url = inr v ->
  user_id v = Some uid ->
  uid <> "" ->
  saml_matches s uid provider = [] ->
  auth_saml validate env provider saml_response base_url s = (s, inl AccessDenied).
Proof.
  intros Hval Huid Hne Hnone.
  unfold auth_saml, _auth_saml_validate. unfold bind at 1. unfold bind at 1.
  unfold get at 1. unfold lift at 1. rewrite Hval, Huid.
  destruct uid as [|c uid']; [congruence|]. simpl.
  unfold bind at 1.
  rewrite (signin_no_match env provider v saml_response (String c uid') s Huid Hnone).
  reflexivity.
Qed.

Lemma auth_saml_unknown_subject_witness :
  saml_matches Sample.db_unlinked "abc" 7 = []
  /\ auth_saml Sample.validate Sample.env 7 "blob" None Sample.db_unlinked
     = (Sample.db_unlinked, inl AccessDenied).
Proof.
  split; [reflexivity|].
  apply (auth_saml_unknown_subject Sample.validate Sample.env 7 "blob" None
           Sample.db_unlinked (mkValidation (Some "abc") ∅) "abc");
    [reflexivity | reflexivity | discriminate | reflexivity].
Defined.

(** ** The token backfill *)

Lemma same_rows_refl (s : State) : same_rows s s.
Proof. split; reflexivity. Qed.

Lemma same_rows_trans (a b c : State) :
  same_rows a b -> same_rows b c -> same_rows a c.
Proof. intros [H1 H2] [H3 H4]. split; congruence. Qed.

Lemma same_rows_find_user (s s' : State) (i : Z) :
  same_rows s s' -> find_user s' i = find_user s i.
Proof. intros [Hu _]. unfold find_user. rewrite Hu. reflexivity. Qed.

Lemma same_rows_saml_ids_of (s s' : State) (i : Z) :
  same_rows s s' -> saml_ids_of s' i = saml_ids_of s i.
Proof. intros [_ Hl]. unfold saml_ids_of. rewrite Hl. reflexivity. Qed.

Lemma has_token_backfilled (s s' : State) (u p : Z) :
  backfilled s s' -> has_token s u p -> has_token s' u p.
Proof.
  intros (Hb & _) Hhas. unfold has_token in *.
  rewrite !search_token_pair_tokens in *.
  rewrite (backfill_pair_kept _ _ u p Hb Hhas). exact Hhas.
Qed.

(** [saml_ids] reads the links of a user that has a row. *)
Lemma saml_ids_eq (i : Z) (s : State) :
  saml_ids i s =
  match find_user s i with
  | Some _ => (s, inr (saml_ids_of s i))
  | None => (s, inl (MissingError "res.users" i))
  end.
Proof.
  unfold saml_ids, read_user. unfold_M.
  destruct (find_user s i); reflexivity.
Qed.

Lemma ensure_token_eq (record provider : Z) (s : State) :
  ensure_token record provider s =
  match search_token s record provider with
  | [] => (set_tokens (auth_saml_token s ++ [Token.mk (token_seq s) record provider None])
                      (token_seq s + 1) s, inr tt)
  | _ => (s, inr tt)
  end.
Proof.
  unfold ensure_token, token_create. unfold_M.
  destruct (search_token s record provider); reflexivity.
Qed.

Lemma ensure_token_spec (record provider : Z) (s : State) :
  let s' := fst (ensure_token record provider s) in
  snd (ensure_token record provider s) = inr tt
  /\ same_rows s s'
  /\ has_token s' record provider
  /\ (has_token s record provider -> s' = s).
Proof.
  rewrite ensure_token_eq. unfold has_token.
  destruct (search_token s record provider) eqn:Hsearch; simpl.
  - repeat split; try reflexivity.
    + rewrite search_token_pair_tokens in *. simpl.
      rewrite pair_tokens_app. simpl. rewrite !Z.eqb_refl. simpl.
      intros Happ. apply app_eq_nil in Happ. destruct Happ; discriminate.
    + intros Hhas. congruence.
  - repeat split; try reflexivity; congruence.
Qed.

Lemma ensure_links_backfilled (record : Z) (links : list SamlId.t) :
  keeps backfilled (ensure_links record links).
Proof. unfold ensure_links. keeps_backfilled. Qed.

Lemma ensure_links_spec (record : Z) (links : list SamlId.t) (s : State) :
  let s' := fst (ensure_links record links s) in
  snd (ensure_links record links s) = inr tt
  /\ same_rows s s'
  /\ (forall l, In l links -> has_token s' record (SamlId.saml_provider_id l))
  /\ ((forall l, In l links -> has_token s record (SamlId.saml_provider_id l)) ->
      s' = s).
Proof.
  revert s. induction links as [|l rest IH]; intros s; simpl.
  - repeat split; try reflexivity. intros l [].
  - unfold ensure_links in *. simpl. unfold bind at 1 2 3 4.
    destruct (ensure_token_spec record (SamlId.saml_provider_id l) s)
      as (Hret & Hrows & Hhas & Hsame).
    destruct (ensure_token record (SamlId.saml_provider_id l) s) as [s1 r] eqn:Hstep.
    simpl in *. subst r.
    destruct (IH s1) as (Hret' & Hrows' & Hhas' & Hsame').
    repeat split.
    + exact Hret'.
    + apply (same_rows_trans s s1 _ Hrows Hrows').
    + apply (same_rows_trans s s1 _ Hrows Hrows').
    + intros l' [-> | Hin].
      * eapply has_token_backfilled; [|exact Hhas].
        apply (ensure_links_backfilled record rest s1).
      * apply Hhas'. exact Hin.
    + intros Hall.
      assert (Hs1 : s1 = s) by (apply Hsame, Hall; left; reflexivity).
      subst s1. apply Hsame'. intros l' Hin. apply Hall. right. exact Hin.
Qed.

Lemma ensure_records_backfilled (recs : list Z) :
  keeps backfilled (ensure_records recs).
Proof.
  unfold ensure_records. keeps_backfilled.
Qed.

Lemma ensure_records_cons (r : Z) (rest : list Z) (s : State) :
  ensure_records (r :: rest) s =
  match find_user s r with
  | None => (s, inl (MissingError "res.users" r))
  | Some _ =>
      match ensure_links r (saml_ids_of s r) s with
      | (s1, inr _) => ensure_records rest s1
      | (s1, inl e) => (s1, inl e)
      end
  end.
Proof.
  unfold ensure_records. simpl. unfold bind at 1 2. rewrite saml_ids_eq.
  destruct (find_user s r); reflexivity.
Qed.

Lemma ensure_records_spec (recs : list Z) (s : State) :
  all_exist s recs ->
  let s' := fst (ensure_records recs s) in
  snd (ensure_records recs s) = inr tt
  /\ same_rows s s'
  /\ covered s' recs
  /\ (covered s recs -> s' = s).
Proof.
  revert s. induction recs as [|r rest IH]; intros s Hexist.
  - simpl. repeat split; try reflexivity. intros r l [].
  - rewrite ensure_records_cons.
    destruct (find_user s r) as [u|] eqn:Hfind;
      [|exfalso; apply (Hexist r); [left; reflexivity | exact Hfind]].
    destruct (ensure_links_spec r (saml_ids_of s r) s)
      as (Hret & Hrows & Hhas & Hsame).
    destruct (ensure_links r (saml_ids_of s r) s) as [s1 res] eqn:Hstep.
    simpl in Hret, Hrows, Hhas, Hsame. subst res.
    assert (Hexist1 : all_exist s1 rest).
    { intros r' Hin. rewrite (same_rows_find_user s s1 r' Hrows).
      apply Hexist. right. exact Hin. }
    destruct (IH s1 Hexist1) as (Hret' & Hrows' & Hcov' & Hsame').
    pose proof (ensure_records_backfilled rest s1) as Hback'.
    split; [exact Hret'|]. split; [|split].
    + apply (same_rows_trans s s1 _ Hrows Hrows').
    + intros r' l [<- | Hin] Hl.
      * eapply has_token_backfilled; [exact Hback'|].
        apply Hhas.
        rewrite (same_rows_saml_ids_of s1 _ r Hrows') in Hl.
        rewrite (same_rows_saml_ids_of s s1 r Hrows) in Hl. exact Hl.
      * apply Hcov'; assumption.
    + intros Hcov.
      assert (Hs1 : s1 = s).
      { apply Hsame. intros l Hl. apply Hcov; [left; reflexivity | exact Hl]. }
      subst s1. apply Hsame'. intros r' l Hin Hl. apply Hcov; [right; exact Hin | exact Hl].
Qed.

Lemma with_saml_ids_cons (r : Z) (rest : list Z) (s : State) :
  with_saml_ids (r :: rest) s =
  match find_user s r with
  | None => (s, inl (MissingError "res.users" r))
  | Some _ =>
      match with_saml_ids rest s with
      | (s', inl e) => (s', inl e)
      | (s', inr kept) =>
          (s', inr (if nonempty (saml_ids_of s r) then r :: kept else kept))
      end
  end.
Proof.
  unfold with_saml_ids. simpl. unfold has_saml_ids. unfold bind at 1 2.
  rewrite saml_ids_eq.
  destruct (find_user s r); [|reflexivity]. unfold ret at 1.
  unfold bind at 1. destruct (filtered _ rest s) as [s' [e|kept]]; reflexivity.
Qed.

Lemma with_saml_ids_state (self : list Z) (s : State) :
  fst (with_saml_ids self s) = s.
Proof.
  induction self as [|r rest IH]; [reflexivity|].
  rewrite with_saml_ids_cons. destruct (find_user s r); [|reflexivity].
  destruct (with_saml_ids rest s) as [s' [e|kept]]; simpl in *; exact IH.
Qed.

Lemma with_saml_ids_same_rows (self : list Z) (s s1 : State) :
  same_rows s s1 -> snd (with_saml_ids self s1) = snd (with_saml_ids self s).
Proof.
  intros Hrows. induction self as [|r rest IH]; [reflexivity|].
  rewrite !with_saml_ids_cons.
  rewrite (same_rows_find_user s s1 r Hrows), (same_rows_saml_ids_of s s1 r Hrows).
  destruct (find_user s r); [|reflexivity].
  destruct (with_saml_ids rest s1) as [s1' [e1|kept1]];
    destruct (with_saml_ids rest s) as [s' [e|kept]]; simpl in *;
    first [exact IH | discriminate | (injection IH as ->; reflexivity)].
Qed.

Lemma with_saml_ids_kept (self kept : list Z) (s : State) :
  snd (with_saml_ids self s) = inr kept ->
  all_exist s self
  /\ (forall r, In r kept <-> In r self /\ saml_ids_of s r <> []).
Proof.
  revert kept. induction self as [|r rest IH]; intros kept.
  - simpl. intros [= <-]. split; [intros r []|]. intros r. simpl. tauto.
  - rewrite with_saml_ids_cons.
    destruct (find_user s r) as [u|] eqn:Hfind; [|discriminate].
    destruct (with_saml_ids rest s) as [s' [e|kept']]; [discriminate|].
    simpl. intros [= <-]. destruct (IH kept' eq_refl) as [Hexist Hkept]. split.
    + intros r' [<- | Hin]; [congruence | apply Hexist; exact Hin].
    + intros r'. destruct (saml_ids_of s r) eqn:Hlinks; simpl.
      * rewrite Hkept. split.
        -- intros [Hin Hne]. split; [right; exact Hin | exact Hne].
        -- intros [[<- | Hin] Hne]; [congruence | split; assumption].
      * rewrite Hkept. split.
        -- intros [<- | [Hin Hne]]; [split; [left; reflexivity | congruence]|].
           split; [right; exact Hin | exact Hne].
        -- intros [[<- | Hin] Hne]; [left; reflexivity | right; split; assumption].
Qed.

Lemma with_saml_ids_total (self : list Z) (s : State) :
  all_exist s self -> exists kept, snd (with_saml_ids self s) = inr kept.
Proof.
  induction self as [|r rest IH]; intros Hexist.
  - exists []. reflexivity.
  - rewrite with_saml_ids_cons.
    destruct (find_user s r) eqn:Hfind;
      [|exfalso; apply (Hexist r); [left; reflexivity | exact Hfind]].
    destruct IH as [kept Hkept]; [intros r' Hin; apply Hexist; right; exact Hin|].
    destruct (with_saml_ids rest s) as [s' [e|kept']]; simpl in *; [discriminate|].
    eexists. reflexivity.
Qed.

Lemma ensure_saml_token_exists_eq (self : list Z) (s : State) :
  _ensure_saml_token_exists self s =
  match snd (with_saml_ids self s) with
  | inl e => (s, inl e)
  | inr kept => ensure_records kept s
  end.
Proof.
  unfold _ensure_saml_token_exists. fold (with_saml_ids self). unfold bind at 1.
  pose proof (with_saml_ids_state self s) as Hstate.
  destruct (with_saml_ids self s) as [s' [e|kept]]; simpl in *; subst s'; reflexivity.
Qed.

(** C6: [_ensure_saml_token_exists] is idempotent.  A second call leaves
    the state and the result of the first; the token table it leaves is the
    initial one followed by tokens without a value, so no stored value is
    overwritten; and when the records exist, the calls return, and every
    linked user and provider that had at most one token has exactly
    one. *)
Theorem ensure_saml_token_exists_idempotent (self : list Z) (s : State) :
  let once := _ensure_saml_token_exists self s in
  let twice := _ensure_saml_token_exists self (fst once) in
  twice = once
  /\ (exists placeholders,
        auth_saml_token (fst twice) = auth_saml_token s ++ placeholders
        /\ Forall (fun t => Token.saml_access_token t = None) placeholders)
  /\ (all_exist s self ->
      snd twice = inr tt
      /\ forall u l, In u self -> In l (saml_ids_of s u) ->
           (length (search_token s u (SamlId.saml_provider_id l)) <= 1)%nat ->
           length (search_token (fst twice) u (SamlId.saml_provider_id l)) = 1%nat).
Proof.
  intros once twice.
  assert (Hback : backfilled s (fst once))
    by apply (ensure_saml_token_exists_backfilled self s).
  assert (Htwice : twice = once /\
            (all_exist s self ->
             snd once = inr tt
             /\ forall u l, In u self -> In l (saml_ids_of s u) ->
                  has_token (fst once) u (SamlId.saml_provider_id l))).
  { subst twice once. rewrite (ensure_saml_token_exists_eq self s).
    destruct (snd (with_saml_ids self s)) as [e|kept] eqn:Hkept.
    - simpl. rewrite (ensure_saml_token_exists_eq self s), Hkept.
      split; [reflexivity|]. intros Hexist.
      destruct (with_saml_ids_total self s Hexist) as [kept Hk]. congruence.
    - destruct (with_saml_ids_kept self kept s Hkept) as [Hexist Hin].
      assert (Hexist_kept : all_exist s kept).
      { intros r Hr. apply Hexist. apply Hin. exact Hr. }
      destruct (ensure_records_spec kept s Hexist_kept) as (Hret & Hrows & Hcov & _).
      set (s1 := fst (ensure_records kept s)) in *.
      assert (Hexist1 : all_exist s1 kept).
      { intros r Hr. rewrite (same_rows_find_user s s1 r Hrows).
        apply Hexist_kept. exact Hr. }
      destruct (ensure_records_spec kept s1 Hexist1) as (Hret1 & _ & _ & Hsame1).
      specialize (Hsame1 Hcov).
      split.
      + rewrite (ensure_saml_token_exists_eq self s1).
        rewrite (with_saml_ids_same_rows self s s1 Hrows), Hkept.
        rewrite (surjective_pairing (ensure_records kept s1)).
        rewrite (surjective_pairing (ensure_records kept s)).
        rewrite Hret1, Hsame1, Hret. reflexivity.
      + intros _. split; [exact Hret|].
        intros u l Hu Hl. apply Hcov.
        * apply Hin. split; [exact Hu|]. destruct (saml_ids_of s u); [destruct Hl | discriminate].
        * rewrite (same_rows_saml_ids_of s s1 u Hrows). exact Hl. }
  destruct Htwice as [Heq Hlinked]. rewrite Heq.
  split; [reflexivity|]. split.
  - destruct Hback as [Hb _]. apply backfill_appended. exact Hb.
  - intros Hexist. destruct (Hlinked Hexist) as [Hret Hhas].
    split; [exact Hret|]. intros u l Hu Hl Hle.
    specialize (Hhas u l Hu Hl). unfold has_token in Hhas.
    destruct Hback as [Hb _].
    pose proof (backfill_at_most_one _ _ u (SamlId.saml_provider_id l) Hb) as Hmost.
    rewrite <- !search_token_pair_tokens in Hmost. specialize (Hmost Hle).
    destruct (search_token (fst once) u (SamlId.saml_provider_id l)) as [|t [|t' ts]];
      simpl in *; [congruence | reflexivity | lia].
Qed.

Lemma ensure_saml_token_exists_idempotent_witness :
  let once := _ensure_saml_token_exists [5] Sample.db in
  let twice := _ensure_saml_token_exists [5] (fst once) in
  all_exist Sample.db [5]
  /\ twice = once
  /\ length (search_token (fst twice) 5 7) = 1%nat.
Proof.
  intros once twice.
  assert (Hexist : all_exist Sample.db [5]).
  { intros r [<- | []]. discriminate. }
  split; [exact Hexist|].
  destruct (ensure_saml_token_exists_idempotent [5] Sample.db) as (Heq & _ & Hone).
  split; [exact Heq|].
  destruct (Hone Hexist) as [_ Hcount].
  apply (Hcount 5 (SamlId.mk 1 5 7 "abc")).
  - left. reflexivity.
  - left. reflexivity.
  - simpl. lia.
Defined.

(** ** Password and SAML id on one user *)

Lemma find_user_id (s : State) (i : Z) (u : User.t) :
  find_user s i = Some u -> User.id u = i.
Proof.
  unfold find_user. intros Hfind. apply find_some in Hfind.
  destruct Hfind as [_ Heq]. lia.
Qed.

Lemma find_user_update_users (s : State) (i : Z) (u : User.t)
    (f : User.t -> User.t) :
  (forall x, User.id (f x) = User.id x) ->
  find_user s i = Some u ->
  find_user (update_users [i] f s) i = Some (f u).
Proof.
  intros Hid. unfold find_user, update_users. simpl.
  induction (res_users s) as [|x xs IH]; simpl; [discriminate|].
  unfold mem_Z. simpl.
  destruct (User.id x =? i) eqn:Hx; simpl.
  - intros [= ->]. rewrite Hid, Hx. reflexivity.
  - intros Hfind. rewrite Hx. apply IH. exact Hfind.
Qed.

Lemma allow_saml_and_password_eq (s : State) :
  _allow_saml_and_password s
  = (s, str2bool (get_param s "auth_saml.allow_saml_uid_and_internal_password"
                            "False")).
Proof. reflexivity. Qed.

Lemma allow_saml_and_password_stable (s s' : State) (r : exn + bool) :
  ir_config_parameter s' = ir_config_parameter s ->
  _allow_saml_and_password s = (s, r) ->
  _allow_saml_and_password s' = (s', r).
Proof.
  intros Hconfig. rewrite !allow_saml_and_password_eq. unfold get_param.
  rewrite Hconfig. intros [= <-]. reflexivity.
Qed.

Lemma not_in_allowed_true (i : Z) (allowed : gset Z) :
  i ∉ allowed -> not_in_allowed (Some i) allowed = true.
Proof. intros Hnot. simpl. rewrite bool_decide_eq_false_2; [reflexivity | exact Hnot]. Qed.

Lemma superuser_allowed (s : State) : SUPERUSER_ID ∈ _saml_allowed_user_ids s.
Proof. unfold _saml_allowed_user_ids. destruct (base_user_admin s); set_solver. Qed.

Lemma bind_returns {A B} (m : M A) (k : A -> M B) (s s' : State) (a : A) :
  m s = (s', inr a) -> bind m k s = k a s'.
Proof. intros Hm. unfold bind. rewrite Hm. reflexivity. Qed.

Lemma bind_raises {A B} (m : M A) (k : A -> M B) (s s' : State) (e : exn) :
  m s = (s', inl e) -> bind m k s = (s', inl e).
Proof. intros Hm. unfold bind. rewrite Hm. reflexivity. Qed.

Lemma read_user_eq (i : Z) (s : State) :
  read_user i s =
  match find_user s i with
  | Some u => (s, inr u)
  | None => (s, inl (MissingError "res.users" i))
  end.
Proof. unfold read_user. unfold_M. destruct (find_user s i); reflexivity. Qed.

Lemma password_conflict_eq (self : list Z) (user : Z) (s : State) (u : User.t) :
  find_user s user = Some u ->
  password_conflict self user s =
  if nonempty (saml_ids_of s user) then
    match record_id self with
    | inl e => (s, inl e)
    | inr rid =>
        (s, inr (not_in_allowed rid (_saml_allowed_user_ids s)
                 && char_truthy (User.password u))%bool)
    end
  else (s, inr false).
Proof.
  intros Hfind. unfold password_conflict. unfold bind at 1.
  rewrite saml_ids_eq, Hfind.
  destruct (nonempty (saml_ids_of s user)); [|reflexivity].
  unfold bind at 1. unfold lift.
  destruct (record_id self) as [e|rid]; [reflexivity|].
  unfold bind at 1. unfold get.
  destruct (not_in_allowed rid (_saml_allowed_user_ids s)); [|reflexivity].
  unfold bind. rewrite read_user_eq, Hfind. reflexivity.
Qed.

Lemma password_is_false_eq (user : Z) (s : State) (u : User.t) :
  find_user s user = Some u ->
  password_is_false user s
  = (s, inr (match User.password u with None => true | Some _ => false end)).
Proof.
  intros Hfind. unfold password_is_false, bind. rewrite read_user_eq, Hfind.
  reflexivity.
Qed.

Lemma password_to_remove_eq (rec : Z) (s : State) (u : User.t) :
  find_user s rec = Some u ->
  password_to_remove rec s =
  (s, inr (negb (rec =? SUPERUSER_ID)
           && nonempty (saml_ids_of s rec)
           && char_truthy (User.password u))%bool).
Proof.
  intros Hfind. unfold password_to_remove.
  destruct (negb (rec =? SUPERUSER_ID)); [|reflexivity].
  unfold bind at 1. rewrite saml_ids_eq, Hfind.
  destruct (nonempty (saml_ids_of s rec)); [|reflexivity].
  unfold bind. rewrite read_user_eq, Hfind. reflexivity.
Qed.

Lemma filtered_one {A} (p : A -> M bool) (r : A) (s : State) (keep : bool) :
  p r s = (s, inr keep) ->
  filtered p [r] s = (s, inr (if keep then [r] else [])).
Proof.
  intros Hp. simpl. rewrite (bind_returns _ _ _ _ _ Hp). reflexivity.
Qed.

(** What the blank path of [_set_password] leaves of a row: the column
    NULL and the field reading ['']. *)
Lemma find_user_blanked (s : State) (i : Z) (u : User.t) :
  find_user s i = Some u ->
  find_user (update_users [i] (set_password (Some ""))
               (update_users [i] (set_password_column None) s)) i
  = Some (User.mk (User.id u) (User.login u) (Some "") None).
Proof.
  intros Hfind.
  rewrite (find_user_update_users _ i (set_password_column None u)
             (set_password (Some "")) (fun x => eq_refl)); [reflexivity|].
  apply (find_user_update_users s i u (set_password_column None) (fun x => eq_refl)).
  exact Hfind.
Qed.

(** [_set_password] on one user whose password value is blank: nothing is
    raised, the column becomes NULL and the cache is invalidated. *)
Lemma set_password_blank (s : State) (i : Z) (u : User.t) (r : bool) :
  _allow_saml_and_password s = (s, inr r) ->
  find_user s i = Some u ->
  User.password u = None ->
  _set_password [i] s
  = (update_users [i] (set_password (Some ""))
       (update_users [i] (set_password_column None) s), inr tt).
Proof.
  intros Hallow Hfind Hblank. unfold _set_password.
  rewrite (bind_returns _ _ _ _ _ Hallow).
  assert (Hcheck :
    (if negb r then
       let* saml_users := filtered (password_conflict [i]) [i] in
       if nonempty saml_users then
         let* logins := mapped_login saml_users in
         raise (ValidationError logins)
       else ret tt
     else ret tt) s = (s, inr tt)).
  { destruct r; [reflexivity|]. cbn [negb].
    erewrite bind_returns; cycle 1.
    { apply filtered_one. rewrite (password_conflict_eq [i] i s u Hfind).
      rewrite Hblank. cbn [record_id char_truthy]. rewrite andb_false_r.
      destruct (nonempty (saml_ids_of s i)); reflexivity. }
    reflexivity. }
  rewrite (bind_returns _ _ _ _ _ Hcheck).
  erewrite bind_returns; cycle 1.
  { apply filtered_one. rewrite (password_is_false_eq i s u Hfind), Hblank. reflexivity. }
  cbn [minus mem_Z List.filter existsb negb nonempty orb]. rewrite Z.eqb_refl.
  reflexivity.
Qed.

(** [_set_password] on one user that has SAML ids, is not allowed and has
    a password: [ValidationError] with the login, nothing stored. *)
Lemma set_password_conflict (s : State) (i : Z) (u : User.t) :
  _allow_saml_and_password s = (s, inr false) ->
  find_user s i = Some u ->
  saml_ids_of s i <> [] ->
  i ∉ _saml_allowed_user_ids s ->
  char_truthy (User.password u) = true ->
  _set_password [i] s = (s, inl (ValidationError [User.login u])).
Proof.
  intros Hallow Hfind Hlinks Hnot Hpw. unfold _set_password.
  rewrite (bind_returns _ _ _ _ _ Hallow). cbn [negb].
  apply bind_raises.
  assert (Hkeep : password_conflict [i] i s = (s, inr true)).
  { rewrite (password_conflict_eq [i] i s u Hfind).
    destruct (saml_ids_of s i); [congruence|]. cbn [nonempty record_id].
    rewrite (not_in_allowed_true i _ Hnot), Hpw. reflexivity. }
  rewrite (bind_returns _ _ _ _ _ (filtered_one _ _ _ _ Hkeep)).
  cbn [nonempty andb mapped_login].
  erewrite bind_returns; cycle 1.
  { erewrite bind_returns; [|rewrite read_user_eq, Hfind; reflexivity]. reflexivity. }
  reflexivity.
Qed.

Lemma assign_fields_id (vals : gmap string pyval) (u : User.t) :
  User.id (assign_fields vals u) = User.id u.
Proof.
  unfold assign_fields.
  destruct (vals !! "login"), (vals !! "password"); reflexivity.
Qed.

Lemma assign_fields_password (vals : gmap string pyval) (u : User.t) (v : pyval) :
  vals !! "password" = Some v ->
  User.password (assign_fields vals u) = to_char v.
Proof.
  intros Hv. unfold assign_fields. rewrite Hv.
  destruct (vals !! "login"); reflexivity.
Qed.

Lemma assign_fields_column (vals : gmap string pyval) (u : User.t) :
  User.password_column (assign_fields vals u) = User.password_column u.
Proof.
  unfold assign_fields.
  destruct (vals !! "login"), (vals !! "password"); reflexivity.
Qed.

(** The inherited [write] on one record, before the links are written and
    the inverse runs. *)
Lemma super_write_one (vals : gmap string pyval) (i : Z) (u : User.t) (s : State) :
  find_user s i = Some u ->
  super_write vals [i] s =
  (match vals !! "saml_ids" with
   | Some v => write_saml_ids v [i]
   | None => ret tt
   end;;
   match vals !! "password" with
   | Some _ => _set_password [i]
   | None => ret tt
   end;; ret true) (update_users [i] (assign_fields vals) s).
Proof.
  intros Hfind. unfold super_write. cbn [for_each].
  unfold bind at 1 2 3. rewrite read_user_eq, Hfind. reflexivity.
Qed.

(** An explicit write of a password, and of no SAML id, on one user that
    has SAML ids and is not allowed raises [ValidationError] with the login
    of the user, and the password column keeps its value. *)
Lemma write_password_conflict (env : Env) (vals : gmap string pyval) (v : pyval)
    (s : State) (i : Z) (u : User.t) :
  _allow_saml_and_password s = (s, inr false) ->
  find_user s i = Some u ->
  saml_ids_of s i <> [] ->
  i ∉ _saml_allowed_user_ids s ->
  vals !! "saml_ids" = None ->
  vals !! "password" = Some v ->
  char_truthy (to_char v) = true ->
  let s' := update_users [i] (assign_fields vals) s in
  write env vals [i] s
  = (s', inl (ValidationError [User.login (assign_fields vals u)]))
  /\ (User.password_column <$> find_user s' i) = Some (User.password_column u).
Proof.
  intros Hallow Hfind Hlinks Hnot Hids Hv Hpw s'.
  assert (Hfind' : find_user s' i = Some (assign_fields vals u)).
  { apply find_user_update_users; [apply assign_fields_id | exact Hfind]. }
  split.
  - unfold write, write_with. apply bind_raises.
    rewrite (super_write_one vals i u s Hfind), Hids, Hv. fold s'.
    erewrite bind_returns; [|reflexivity].
    apply bind_raises.
    apply set_password_conflict.
    + apply (allow_saml_and_password_stable s); [reflexivity | exact Hallow].
    + exact Hfind'.
    + exact Hlinks.
    + exact Hnot.
    + rewrite (assign_fields_password vals u v Hv). exact Hpw.
  - rewrite Hfind'. simpl. apply f_equal, assign_fields_column.
Qed.

Lemma ensure_saml_token_exists_returns (self : list Z) (s : State) :
  all_exist s self ->
  snd (_ensure_saml_token_exists self s) = inr tt
  /\ same_rows s (fst (_ensure_saml_token_exists self s)).
Proof.
  intros Hexist. rewrite ensure_saml_token_exists_eq.
  destruct (with_saml_ids_total self s Hexist) as [kept Hkept]. rewrite Hkept.
  destruct (with_saml_ids_kept self kept s Hkept) as [_ Hin].
  assert (Hexist_kept : all_exist s kept).
  { intros r Hr. apply Hexist. apply Hin. exact Hr. }
  destruct (ensure_records_spec kept s Hexist_kept) as (Hret & Hrows & _).
  split; assumption.
Qed.

Lemma all_exist_one (s : State) (i : Z) (u : User.t) :
  find_user s i = Some u -> all_exist s [i].
Proof. intros Hfind r [<- | []]. congruence. Qed.

(** [write] under the flag, with a blank password, on one record: the
    column becomes NULL and the field reads ['']. *)
Lemma write_no_autoremove_blank (env : Env) (s : State) (i : Z) (u : User.t) (r : bool) :
  _allow_saml_and_password s = (s, inr r) ->
  find_user s i = Some u ->
  let run := write_no_autoremove env {[ "password" := PyFalse ]} [i] s in
  snd run = inr true
  /\ find_user (fst run) i = Some (User.mk (User.id u) (User.login u) (Some "") None).
Proof.
  intros Hallow Hfind run. subst run.
  set (vals := ({[ "password" := PyFalse ]} : gmap string pyval)).
  set (s1 := update_users [i] (assign_fields vals) s).
  assert (Hfind1 : find_user s1 i = Some (assign_fields vals u)).
  { apply find_user_update_users; [apply assign_fields_id | exact Hfind]. }
  assert (Hassign : assign_fields vals u = set_password None u) by reflexivity.
  set (s2 := update_users [i] (set_password (Some ""))
               (update_users [i] (set_password_column None) s1)).
  assert (Hfind2 : find_user s2 i
                   = Some (User.mk (User.id u) (User.login u) (Some "") None)).
  { unfold s2. rewrite (find_user_blanked s1 i _ Hfind1), Hassign. reflexivity. }
  assert (Hsuper : super_write vals [i] s = (s2, inr true)).
  { rewrite (super_write_one vals i u s Hfind). fold s1.
    change (vals !! "saml_ids") with (@None pyval).
    change (vals !! "password") with (Some PyFalse).
    erewrite bind_returns; [|reflexivity].
    erewrite bind_returns; [reflexivity|].
    eapply set_password_blank.
    - apply (allow_saml_and_password_stable s); [reflexivity | exact Hallow].
    - exact Hfind1.
    - rewrite Hassign. reflexivity. }
  destruct (ensure_saml_token_exists_returns [i] s2 (all_exist_one s2 i _ Hfind2))
    as [Hret Hrows].
  assert (Hrun : write_no_autoremove env vals [i] s
                 = (fst (_ensure_saml_token_exists [i] s2), inr true)).
  { unfold write_no_autoremove, write_with.
    rewrite (bind_returns _ _ _ _ _ Hsuper).
    erewrite bind_returns; [|reflexivity].
    erewrite bind_returns; [reflexivity|].
    rewrite (surjective_pairing (_ensure_saml_token_exists [i] s2)), Hret.
    reflexivity. }
  rewrite Hrun. cbn [fst snd]. split; [reflexivity|].
  rewrite (same_rows_find_user s2 _ i Hrows). exact Hfind2.
Qed.

(** [_autoremove_password_if_saml] on one user whose password has to go:
    it returns, the column is NULL and the field reads ['']. *)
Lemma autoremove_password_blanks_one (env : Env) (s : State) (i : Z) (u : User.t) :
  no_autoremove_password env = false ->
  _allow_saml_and_password s = (s, inr false) ->
  mem_string "password_security" (installed_modules s) = false ->
  find_user s i = Some u ->
  i <> SUPERUSER_ID ->
  saml_ids_of s i <> [] ->
  char_truthy (User.password u) = true ->
  let run := _autoremove_password_if_saml env [i] s in
  snd run = inr tt
  /\ find_user (fst run) i = Some (User.mk i (User.login u) (Some "") None).
Proof.
  intros Hflag Hallow Hmodules Hfind Hsuper Hlinks Hpw run. subst run.
  unfold _autoremove_password_if_saml. rewrite Hflag.
  rewrite (bind_returns _ _ _ _ _ Hallow).
  assert (Hkeep : password_to_remove i s = (s, inr true)).
  { rewrite (password_to_remove_eq i s u Hfind), Hpw.
    destruct (saml_ids_of s i); [congruence|].
    apply Z.eqb_neq in Hsuper. rewrite Hsuper. reflexivity. }
  rewrite (bind_returns _ _ _ _ _ (filtered_one _ _ _ _ Hkeep)).
  cbn [nonempty negb andb].
  assert (Hgen : _autoremove_password_if_saml_gen_password env s
                 = (s, inr PyFalse)).
  { unfold _autoremove_password_if_saml_gen_password. unfold bind, get.
    rewrite Hmodules. reflexivity. }
  rewrite (bind_returns _ _ _ _ _ Hgen).
  destruct (write_no_autoremove_blank (with_no_autoremove_password env) s i u false
              Hallow Hfind) as [Hret Hu].
  unfold bind.
  rewrite (surjective_pairing
             (write_no_autoremove (with_no_autoremove_password env)
                {[ "password" := PyFalse ]} [i] s)).
  rewrite Hret.
  unfold ret. cbn [fst snd]. split; [reflexivity|].
  rewrite Hu. rewrite (find_user_id s i u Hfind). reflexivity.
Qed.

(** [_autoremove_password_if_saml] on records whose password field reads
    empty: line 173 keeps none of them and nothing is written. *)
Lemma autoremove_password_nothing (env : Env) (self : list Z) (s : State) (b : bool) :
  _allow_saml_and_password s = (s, inr b) ->
  (forall r, In r self ->
     exists u, find_user s r = Some u /\ char_truthy (User.password u) = false) ->
  _autoremove_password_if_saml env self s = (s, inr tt).
Proof.
  intros Hallow Hempty. unfold _autoremove_password_if_saml.
  destruct (no_autoremove_password env); [reflexivity|].
  rewrite (bind_returns _ _ _ _ _ Hallow). destruct b; [reflexivity|].
  assert (Hnone : filtered password_to_remove self s = (s, inr [])).
  { induction self as [|r rest IH]; [reflexivity|]. cbn [filtered].
    destruct (Hempty r (or_introl eq_refl)) as (u & Hfind & Hpw).
    assert (Hr : password_to_remove r s = (s, inr false)).
    { rewrite (password_to_remove_eq r s u Hfind), Hpw.
      rewrite andb_false_r. reflexivity. }
    rewrite (bind_returns _ _ _ _ _ Hr).
    rewrite (bind_returns _ _ _ _ _ (IH (fun r' Hr' => Hempty r' (or_intror Hr')))).
    reflexivity. }
  rewrite (bind_returns _ _ _ _ _ Hnone). reflexivity.
Qed.




(** With [password_security] installed, on alice while her password field
    holds a value, the step writes the generated password, and the password
    inverse refuses it: the step raises. *)
Lemma autoremove_password_with_password_security :
  snd (_autoremove_password_if_saml Sample.env [5] Sample.db_password_security)
  = inl (ValidationError [Some "alice"]).
Proof. vm_compute. reflexivity. Qed.

(** C2 at the record set of the superuser and the default administrator
    (users 1 and 2, [base.user_admin] is user 2): both are exempt and both
    have a SAML id, and coexistence is disallowed.  The explicit write of a
    password on either of them alone returns and stores the hash; the same
    write on both raises the [ValueError] of [self.id] (line 42), and no
    hash is stored. *)
Lemma write_password_on_exempt_users :
  let vals : gmap string pyval := {[ "password" := PyStr "x" ]} in
  let both := write Sample.env vals [1; 2] Sample.db_exempt in
  _allow_saml_and_password Sample.db_exempt = (Sample.db_exempt, inr false)
  /\ base_user_admin Sample.db_exempt = Some 2
  /\ bool_decide (1 ∈ _saml_allowed_user_ids Sample.db_exempt) = true
  /\ bool_decide (2 ∈ _saml_allowed_user_ids Sample.db_exempt) = true
  /\ nonempty (saml_ids_of Sample.db_exempt 1) = true
  /\ nonempty (saml_ids_of Sample.db_exempt 2) = true
  /\ snd (write Sample.env vals [1] Sample.db_exempt) = inr true
  /\ (User.password_column
        <$> find_user (fst (write Sample.env vals [1] Sample.db_exempt)) 1)
     = Some (Some (Crypt "x"))
  /\ snd (write Sample.env vals [2] Sample.db_exempt) = inr true
  /\ (User.password_column
        <$> find_user (fst (write Sample.env vals [2] Sample.db_exempt)) 2)
     = Some (Some (Crypt "x"))
  /\ snd both = inl (ValueError "Expected singleton")
  /\ (User.password_column <$> find_user (fst both) 1) = Some (Some (Crypt "rootpw"))
  /\ (User.password_column <$> find_user (fst both) 2)
     = Some (Some (Crypt "adminpw")).
Proof. vm_compute. repeat split. Qed.

(** The test of line 173 exempts [SUPERUSER_ID] and not the exempt list.
    After a [write] of a password the field of the administrator reads
    [''] and the step keeps the new hash; run on the administrator while
    the password field holds a value, the step removes the stored
    password. *)
Lemma autoremove_password_of_admin :
  let written := write Sample.env {[ "password" := PyStr "newpw" ]} [2] Sample.db in
  let run := _autoremove_password_if_saml Sample.env [2] Sample.db in
  bool_decide (2 ∈ _saml_allowed_user_ids Sample.db) = true
  /\ snd written = inr true
  /\ find_user (fst written) 2
     = Some (User.mk 2 (Some "admin") (Some "") (Some (Crypt "newpw")))
  /\ (User.password <$> find_user Sample.db 2) = Some (Some "adminpw")
  /\ snd run = inr tt
  /\ find_user (fst run) 2 = Some (User.mk 2 (Some "admin") (Some "") None).
Proof. vm_compute. repeat split. Qed.

(** C4 at a record set of two users: alice and bob both have a SAML id and
    are not exempt, coexistence is disallowed, and the explicit write of a
    password on both raises the [ValueError] of [self.id], not the
    [ValidationError] that lists the logins. *)
Lemma write_password_on_two_users :
  _allow_saml_and_password Sample.db = (Sample.db, inr false)
  /\ bool_decide (5 ∈ _saml_allowed_user_ids Sample.db) = false
  /\ bool_decide (6 ∈ _saml_allowed_user_ids Sample.db) = false
  /\ nonempty (saml_ids_of Sample.db 5) = true
  /\ nonempty (saml_ids_of Sample.db 6) = true
  /\ snd (write Sample.env {[ "password" := PyStr "x" ]} [5; 6] Sample.db)
     = inl (ValueError "Expected singleton")
  /\ snd (write Sample.env {[ "password" := PyStr "x" ]} [5] Sample.db)
     = inl (ValidationError [Some "alice"]).
Proof. vm_compute. repeat split. Qed.

(** ** The two paths on exempt users and on [write] *)

Lemma with_no_autoremove_password_flag (env : Env) :
  no_autoremove_password (with_no_autoremove_password env) = true.
Proof.
  unfold no_autoremove_password, with_no_autoremove_password. cbn [context].
  rewrite lookup_insert_eq. reflexivity.
Qed.

(** Under the flag [write] is [write_no_autoremove], which is what the
    inner call of [_autoremove_password_if_saml] runs. *)
Lemma write_under_flag (env : Env) (vals : gmap string pyval) (self : list Z)
    (s : State) :
  no_autoremove_password env = true ->
  write env vals self s = write_no_autoremove env vals self s.
Proof.
  intros Hflag. unfold write, write_no_autoremove, write_with.
  unfold _autoremove_password_if_saml. rewrite Hflag. reflexivity.
Qed.

(** The password inverse on one exempt user raises nothing, whatever the
    policy, the SAML ids and the password. *)
Lemma set_password_exempt (s : State) (i : Z) (u : User.t) (b : bool) :
  _allow_saml_and_password s = (s, inr b) ->
  find_user s i = Some u ->
  i ∈ _saml_allowed_user_ids s ->
  snd (_set_password [i] s) = inr tt.
Proof.
  intros Hallow Hfind Hin.
  destruct (User.password u) as [p|] eqn:Hpw;
    [|rewrite (set_password_blank s i u b Hallow Hfind Hpw); reflexivity].
  unfold _set_password. rewrite (bind_returns _ _ _ _ _ Hallow).
  assert (Hkeep : password_conflict [i] i s = (s, inr false)).
  { rewrite (password_conflict_eq [i] i s u Hfind). cbn [record_id not_in_allowed].
    rewrite (bool_decide_eq_true_2 _ Hin).
    destruct (nonempty (saml_ids_of s i)); reflexivity. }
  assert (Hcheck :
    (if negb b then
       let* saml_users := filtered (password_conflict [i]) [i] in
       if nonempty saml_users then
         let* logins := mapped_login saml_users in
         raise (ValidationError logins)
       else ret tt
     else ret tt) s = (s, inr tt)).
  { destruct b; [reflexivity|]. cbn [negb].
    rewrite (bind_returns _ _ _ _ _ (filtered_one _ _ _ _ Hkeep)). reflexivity. }
  rewrite (bind_returns _ _ _ _ _ Hcheck).
  assert (Hblank : password_is_false i s = (s, inr false)).
  { rewrite (password_is_false_eq i s u Hfind), Hpw. reflexivity. }
  rewrite (bind_returns _ _ _ _ _ (filtered_one _ _ _ _ Hblank)).
  cbn [minus mem_Z List.filter existsb negb nonempty].
  unfold super_set_password. cbn [for_each].
  unfold bind. rewrite read_user_eq, Hfind, Hpw. reflexivity.
Qed.

(** [_autoremove_password_if_saml] leaves the superuser alone. *)
Lemma autoremove_password_superuser (env : Env) (s : State) (b : bool) :
  _allow_saml_and_password s = (s, inr b) ->
  _autoremove_password_if_saml env [SUPERUSER_ID] s = (s, inr tt).
Proof.
  intros Hallow. unfold _autoremove_password_if_saml.
  destruct (no_autoremove_password env); [reflexivity|].
  rewrite (bind_returns _ _ _ _ _ Hallow). destruct b; [reflexivity|].
  assert (Hkeep : password_to_remove SUPERUSER_ID s = (s, inr false)) by reflexivity.
  rewrite (bind_returns _ _ _ _ _ (filtered_one _ _ _ _ Hkeep)). reflexivity.
Qed.

Lemma assign_fields_keeps_password (vals : gmap string pyval) (u : User.t) :
  vals !! "password" = None ->
  User.password (assign_fields vals u) = User.password u.
Proof.
  intros Hnone. unfold assign_fields. rewrite Hnone.
  destruct (vals !! "login"); reflexivity.
Qed.

(** ** Tokens issued at sign-in *)

Lemma signin_token_sync_eq (user provider : Z) (saml_response : string) (s : State) :
  signin_token_sync user provider saml_response s =
  match search_token s user provider with
  | [] =>
      (set_tokens (auth_saml_token s
                   ++ [Token.mk (token_seq s) user provider (Some saml_response)])
                  (token_seq s + 1)
                  (log_info "Creating auth_saml.token" s), inr tt)
  | found =>
      (set_tokens (map (overwrite (map Token.id found) saml_response)
                       (auth_saml_token s))
                  (token_seq s) s, inr tt)
  end.
Proof.
  unfold signin_token_sync, token_write, token_create. unfold_M.
  destruct (search_token s user provider); reflexivity.
Qed.

Lemma overwrite_key (ids : list Z) (value : string) (t : Token.t) :
  token_key (overwrite ids value t) = token_key t.
Proof. unfold overwrite. destruct (mem_Z (Token.id t) ids); reflexivity. Qed.

Lemma pair_tokens_overwrite (ids : list Z) (value : string) (ts : list Token.t)
    (u p : Z) :
  pair_tokens (map (overwrite ids value) ts) u p
  = map (overwrite ids value) (pair_tokens ts u p).
Proof.
  unfold pair_tokens. induction ts as [|t ts IH]; [reflexivity|]. simpl.
  assert (Hkey : ((Token.saml_provider_id (overwrite ids value t) =? p)
                  && (Token.user_id (overwrite ids value t) =? u))%bool
                 = ((Token.saml_provider_id t =? p) && (Token.user_id t =? u))%bool).
  { unfold overwrite. destruct (mem_Z (Token.id t) ids); reflexivity. }
  rewrite Hkey.
  destruct ((Token.saml_provider_id t =? p) && (Token.user_id t =? u))%bool;
    simpl; rewrite IH; reflexivity.
Qed.

Lemma mem_Z_In (i : Z) (l : list Z) : In i l -> mem_Z i l = true.
Proof.
  intros Hin. unfold mem_Z. apply existsb_exists. exists i.
  split; [exact Hin | apply Z.eqb_refl].
Qed.

Lemma pair_tokens_one (t : Token.t) (u p : Z) :
  pair_tokens [t] u p
  = if ((Token.saml_provider_id t =? p) && (Token.user_id t =? u))%bool
    then [t] else [].
Proof.
  unfold pair_tokens. simpl.
  destruct ((Token.saml_provider_id t =? p) && (Token.user_id t =? u))%bool;
    reflexivity.
Qed.

(** The token step of a sign-in: an existing token is overwritten in
    place, otherwise one token is added; either way the tokens of the user
    and the provider all carry the response. *)
Lemma signin_token_sync_spec (user provider : Z) (saml_response : string)
    (s : State) :
  let s' := fst (signin_token_sync user provider saml_response s) in
  (search_token s user provider <> [] ->
   map token_key (auth_saml_token s') = map token_key (auth_saml_token s)
   /\ length (search_token s' user provider) = length (search_token s user provider))
  /\ (search_token s user provider = [] ->
      auth_saml_token s'
      = auth_saml_token s ++ [Token.mk (token_seq s) user provider (Some saml_response)]
      /\ length (search_token s' user provider) = 1%nat)
  /\ search_token s' user provider <> []
  /\ Forall (fun t => Token.saml_access_token t = Some saml_response)
            (search_token s' user provider)
  /\ (forall u p, (length (search_token s u p) <= 1)%nat ->
                  (length (search_token s' u p) <= 1)%nat).
Proof.
  rewrite signin_token_sync_eq. rewrite !search_token_pair_tokens.
  destruct (pair_tokens (auth_saml_token s) user provider) as [|t found] eqn:Hfound;
    cbn [fst].
  - split; [congruence|]. rewrite !search_token_pair_tokens. cbn [auth_saml_token set_tokens].
    rewrite pair_tokens_app, Hfound.
    rewrite pair_tokens_one. cbn [Token.saml_provider_id Token.user_id].
    rewrite !Z.eqb_refl. cbn [andb app length].
    split; [intros _; split; reflexivity|].
    split; [discriminate|].
    split; [repeat constructor|].
    intros u p. rewrite !search_token_pair_tokens. cbn [auth_saml_token set_tokens log_info].
    rewrite pair_tokens_app, length_app, pair_tokens_one.
    cbn [Token.saml_provider_id Token.user_id].
    destruct ((provider =? p) && (user =? u))%bool eqn:Hp; cbn [length]; [|lia].
    apply andb_true_iff in Hp. destruct Hp as [Hp Hu].
    apply Z.eqb_eq in Hp, Hu. subst u p. rewrite Hfound. simpl. lia.
  - rewrite !search_token_pair_tokens. cbn [auth_saml_token set_tokens].
    rewrite pair_tokens_overwrite, Hfound.
    split.
    { intros _. split.
      - rewrite map_map. apply map_ext. intros x. apply overwrite_key.
      - apply length_map. }
    split; [congruence|].
    split; [discriminate|].
    split.
    + apply List.Forall_forall. intros x Hx. apply in_map_iff in Hx.
      destruct Hx as (y & <- & Hy). unfold overwrite.
      rewrite (mem_Z_In (Token.id y) (map Token.id (t :: found)));
        [reflexivity | apply in_map; exact Hy].
    + intros u p. rewrite !search_token_pair_tokens. cbn [auth_saml_token set_tokens].
      rewrite pair_tokens_overwrite, length_map. tauto.
Qed.

Lemma backfilled_at_most_one_token (s s' : State) :
  backfilled s s' -> at_most_one_token s -> at_most_one_token s'.
Proof.
  intros [Hb _] Hone u p. rewrite search_token_pair_tokens.
  apply (backfill_at_most_one _ _ u p Hb). apply Hone.
Qed.

Lemma signin_user_at_most_one_token (env : Env) (provider : Z) (v : validation)
    (saml_response : string) (user : Z) (s : State) :
  at_most_one_token s ->
  at_most_one_token (fst (signin_user env provider v saml_response user s)).
Proof.
  intros Hone.
  apply (backfilled_at_most_one_token
           (fst (signin_token_sync user provider saml_response s))).
  - apply signin_user_backfilled.
  - intros u p.
    destruct (signin_token_sync_spec user provider saml_response s)
      as (_ & _ & _ & _ & Hkeep).
    apply Hkeep, Hone.
Qed.

(** The state [_auth_saml_signin] leaves is the initial one or the one of
    [signin_user] for some user. *)
Lemma auth_saml_signin_state (env : Env) (provider : Z) (v : validation)
    (saml_response : string) (s : State) :
  fst (_auth_saml_signin env provider v saml_response s) = s
  \/ exists user,
       _auth_saml_signin env provider v saml_response s
       = signin_user env provider v saml_response user s.
Proof.
  destruct (user_id v) as [uid|] eqn:Huid.
  - destruct (saml_matches s uid provider) as [|l rest] eqn:Hm.
    + left. rewrite (signin_no_match env provider v saml_response uid s Huid Hm).
      reflexivity.
    + right. exists (SamlId.user_id l).
      apply (signin_first_match env provider v saml_response uid s l rest Huid Hm).
  - left. unfold _auth_saml_signin. rewrite Huid. reflexivity.
Qed.

Lemma auth_saml_eq
    (validate : State -> Z -> string -> option string -> exn + validation)
    (env : Env) (provider : Z) (saml_response : string) (base_url : option string)
    (s : State) :
  auth_saml validate env provider saml_response base_url s =
  match validate s provider saml_response base_url with
  | inl e => (s, inl e)
  | inr v =>
      if negb (char_truthy (user_id v)) then (s, inl AccessDenied)
      else
        match _auth_saml_signin env provider v saml_response s with
        | (s', inl e) => (s', inl e)
        | (s', inr login) =>
            if negb (char_truthy login) then (s', inl AccessDenied)
            else (s', inr (dbname env, default "" login, saml_response))
        end
  end.
Proof.
  unfold auth_saml, _auth_saml_validate. unfold bind, get, lift.
  destruct (validate s provider saml_response base_url) as [e|v]; [reflexivity|].
  destruct (negb (char_truthy (user_id v))); [reflexivity|].
  destruct (_auth_saml_signin env provider v saml_response s) as [s' [e|login]];
    [reflexivity|].
  destruct (negb (char_truthy login)); reflexivity.
Qed.

Lemma auth_saml_state
    (validate : State -> Z -> string -> option string -> exn + validation)
    (env : Env) (provider : Z) (saml_response : string) (base_url : option string)
    (s : State) :
  fst (auth_saml validate env provider saml_response base_url s) = s
  \/ exists v, validate s provider saml_response base_url = inr v
               /\ fst (auth_saml validate env provider saml_response base_url s)
                  = fst (_auth_saml_signin env provider v saml_response s).
Proof.
  rewrite auth_saml_eq.
  destruct (validate s provider saml_response base_url) as [e|v]; [left; reflexivity|].
  destruct (negb (char_truthy (user_id v))); [left; reflexivity|].
  right. exists v. split; [reflexivity|].
  destruct (_auth_saml_signin env provider v saml_response s) as [s' [e|login]];
    [reflexivity|].
  destruct (negb (char_truthy login)); reflexivity.
Qed.

Lemma auth_saml_at_most_one_token
    (validate : State -> Z -> string -> option string -> exn + validation)
    (env : Env) (provider : Z) (saml_response : string) (base_url : option string)
    (s : State) :
  at_most_one_token s ->
  at_most_one_token (fst (auth_saml validate env provider saml_response base_url s)).
Proof.
  intros Hone.
  destruct (auth_saml_state validate env provider saml_response base_url s)
    as [-> | (v & _ & ->)]; [exact Hone|].
  destruct (auth_saml_signin_state env provider v saml_response s)
    as [-> | (user & ->)]; [exact Hone|].
  apply signin_user_at_most_one_token. exact Hone.
Qed.

(** C5: the token step of a sign-in overwrites the existing token of the
    user and the provider in place, or adds exactly one token when there is
    none; and from a state with at most one token for every user and
    provider, any series of sign-ins leads to such a state. *)
Theorem signin_keeps_at_most_one_token
    (validate : State -> Z -> string -> option string -> exn + validation)
    (calls : list (Env * Z * string * option string)) (s : State) :
  at_most_one_token s ->
  at_most_one_token (sign_ins validate calls s)
  /\ forall user provider saml_response,
       let s' := fst (signin_token_sync user provider saml_response s) in
       (search_token s user provider <> [] ->
        map token_key (auth_saml_token s') = map token_key (auth_saml_token s)
        /\ length (search_token s' user provider) = 1%nat)
       /\ (search_token s user provider = [] ->
           auth_saml_token s'
           = auth_saml_token s
             ++ [Token.mk (token_seq s) user provider (Some saml_response)]
           /\ length (search_token s' user provider) = 1%nat)
       /\ Forall (fun t => Token.saml_access_token t = Some saml_response)
                 (search_token s' user provider).
Proof.
  intros Hone. split.
  - revert s Hone. induction calls as [|[[[env provider] saml_response] base_url] rest IH];
      intros s Hone; [exact Hone|].
    simpl. apply IH. apply auth_saml_at_most_one_token. exact Hone.
  - intros user provider saml_response s'.
    destruct (signin_token_sync_spec user provider saml_response s)
      as (Hplace & Hnew & Hsome & Hvalue & _).
    fold s' in Hplace, Hnew, Hsome, Hvalue.
    split; [|split; [exact Hnew | exact Hvalue]].
    intros Hfound. destruct (Hplace Hfound) as [Hkeys Hlen].
    split; [exact Hkeys|].
    specialize (Hone user provider).
    destruct (search_token s user provider) as [|t [|t' ts]];
      simpl in *; [congruence | lia | lia].
Qed.

Lemma signin_keeps_at_most_one_token_witness :
  let calls := [(Sample.env, 7, "blob1", None); (Sample.env, 7, "blob2", None)] in
  at_most_one_token Sample.db
  /\ at_most_one_token (sign_ins Sample.validate calls Sample.db)
  /\ auth_saml_token (sign_ins Sample.validate calls Sample.db)
     = [Token.mk 1 5 7 (Some "blob2")].
Proof.
  intros calls.
  assert (Hone : at_most_one_token Sample.db).
  { intros u p. simpl. lia. }
  split; [exact Hone|].
  split; [|reflexivity].
  apply (signin_keeps_at_most_one_token Sample.validate calls Sample.db Hone).
Defined.

(** ** The result of a sign-in *)

Lemma signin_user_eq (env : Env) (provider : Z) (v : validation)
    (saml_response : string) (user : Z) (s : State) :
  signin_user env provider v saml_response user s =
  let s1 := fst (signin_token_sync user provider saml_response s) in
  match (if negb (is_empty_dict (mapped_attrs v))
         then write env (mapped_attrs v) [user] s1
         else (s1, inr true)) with
  | (s2, inl e) => (s2, inl e)
  | (s2, inr _) =>
      match find_user s2 user with
      | Some u => (s2, inr (User.login u))
      | None => (s2, inl (MissingError "res.users" user))
      end
  end.
Proof.
  cbn zeta. set (s1 := fst (signin_token_sync user provider saml_response s)).
  assert (Hsync : signin_token_sync user provider saml_response s = (s1, inr tt)).
  { apply injective_projections; [reflexivity | apply signin_token_sync_returns]. }
  unfold signin_user. rewrite (bind_returns _ _ _ _ _ Hsync).
  unfold bind at 1.
  destruct (negb (is_empty_dict (mapped_attrs v))).
  - unfold bind at 1.
    destruct (write env (mapped_attrs v) [user] s1) as [s2 [e|r]]; [reflexivity|].
    unfold ret at 1. unfold bind. rewrite read_user_eq.
    destruct (find_user s2 user); reflexivity.
  - unfold ret at 1. unfold bind. rewrite read_user_eq.
    destruct (find_user s1 user); reflexivity.
Qed.

Lemma signin_token_sync_users (user provider : Z) (saml_response : string)
    (s : State) :
  res_users (fst (signin_token_sync user provider saml_response s)) = res_users s.
Proof.
  rewrite signin_token_sync_eq.
  destruct (search_token s user provider); reflexivity.
Qed.

(** C7: when the validated subject has a link for the provider, a call of
    [auth_saml] that returns gives the database name, the login of the
    linked user and the response as it came, and every token of that user
    and provider (there is one) carries the response as its value; without
    mapped attributes, the call does return when the user has a login. *)
Theorem auth_saml_returns_login_and_response
    (validate : State -> Z -> string -> option string -> exn + validation)
    (env : Env) (provider : Z) (saml_response : string) (base_url : option string)
    (s : State) (v : validation) (uid : string) (l : SamlId.t)
    (rest : list SamlId.t) :
  validate s provider saml_response base_url = inr v ->
  user_id v = Some uid ->
  saml_matches s uid provider = l :: rest ->
  let user := SamlId.user_id l in
  let run := auth_saml validate env provider saml_response base_url s in
  (forall s' r, run = (s', inr r) ->
     exists login,
       (User.login <$> find_user s' user) = Some (Some login)
       /\ r = (dbname env, login, saml_response)
       /\ search_token s' user provider <> []
       /\ Forall (fun t => Token.saml_access_token t = Some saml_response)
                 (search_token s' user provider))
  /\ (forall u login,
        uid <> "" ->
        mapped_attrs v = ∅ ->
        find_user s user = Some u ->
        User.login u = Some login ->
        login <> "" ->
        exists s', run = (s', inr (dbname env, login, saml_response))).
Proof.
  intros Hval Huid Hmatch user run. subst run.
  rewrite auth_saml_eq, Hval, Huid.
  rewrite (signin_first_match env provider v saml_response uid s l rest Huid Hmatch).
  fold user. rewrite signin_user_eq. cbn zeta.
  destruct (signin_token_sync_spec user provider saml_response s)
    as (_ & _ & Hsome & Hvalue & _).
  set (s1 := fst (signin_token_sync user provider saml_response s)) in *.
  split.
  - intros s' r.
    destruct (negb (char_truthy (Some uid))); [discriminate|].
    assert (Hback : backfilled s1
              (fst (if negb (is_empty_dict (mapped_attrs v))
                    then write env (mapped_attrs v) [user] s1
                    else (s1, inr true)))).
    { destruct (negb (is_empty_dict (mapped_attrs v))).
      - apply write_backfilled.
      - apply backfilled_refl. }
    destruct (if negb (is_empty_dict (mapped_attrs v))
              then write env (mapped_attrs v) [user] s1
              else (s1, inr true)) as [s2 [e|w]]; [discriminate|].
    cbn [fst] in Hback.
    destruct (find_user s2 user) as [u|] eqn:Hfind; [|discriminate].
    destruct (User.login u) as [login|] eqn:Hlogin; [|discriminate].
    destruct (negb (char_truthy (Some login))); [discriminate|].
    intros [= <- <-]. exists login.
    rewrite Hfind. cbn [fmap option_fmap option_map]. rewrite Hlogin.
    split; [reflexivity|]. split; [reflexivity|].
    destruct Hback as [Hb _].
    rewrite !search_token_pair_tokens in *.
    rewrite (backfill_pair_kept _ _ user provider Hb Hsome).
    split; assumption.
  - intros u login Hne Hattrs Hfind Hlogin Hlogin_ne.
    destruct uid as [|c uid']; [congruence|]. cbn [char_truthy str_truthy negb].
    rewrite Hattrs.
    change (is_empty_dict ∅) with true. cbn [negb].
    assert (Hfind1 : find_user s1 user = Some u).
    { unfold find_user, s1. rewrite signin_token_sync_users. exact Hfind. }
    rewrite Hfind1, Hlogin.
    destruct login as [|c' login']; [congruence|].
    cbn [char_truthy str_truthy negb]. eexists. reflexivity.
Qed.

Lemma auth_saml_returns_login_and_response_witness :
  let run := auth_saml Sample.validate Sample.env 7 "blob" None Sample.db in
  saml_matches Sample.db "abc" 7 = [SamlId.mk 1 5 7 "abc"]
  /\ snd run = inr ("db", "alice", "blob")
  /\ search_token (fst run) 5 7 = [Token.mk 1 5 7 (Some "blob")]
  /\ exists login,
       (User.login <$> find_user (fst run) 5) = Some (Some login)
       /\ ("db", "alice", "blob") = (dbname Sample.env, login, "blob")
       /\ search_token (fst run) 5 7 <> []
       /\ Forall (fun t => Token.saml_access_token t = Some "blob")
                 (search_token (fst run) 5 7).
Proof.
  intros run.
  split; [reflexivity|]. split; [reflexivity|]. split; [reflexivity|].
  destruct (auth_saml_returns_login_and_response Sample.validate Sample.env 7 "blob"
              None Sample.db (mkValidation (Some "abc") ∅) "abc"
              (SamlId.mk 1 5 7 "abc") [] eq_refl eq_refl eq_refl) as [Hshape _].
  apply (Hshape (fst run) ("db", "alice", "blob")). reflexivity.
Defined.

(** * Further properties *)

(** ** Frames on the table of users *)

Lemma unchanged_refl (s : State) : unchanged s s.
Proof. reflexivity. Qed.

Lemma unchanged_trans (a b c : State) : unchanged a b -> unchanged b c -> unchanged a c.
Proof. unfold unchanged. congruence. Qed.

Lemma same_users_refl (s : State) : same_users s s.
Proof. reflexivity. Qed.

Lemma same_users_trans (a b c : State) :
  same_users a b -> same_users b c -> same_users a c.
Proof. unfold same_users. congruence. Qed.

Lemma untouched_outside_refl (ids : list Z) (s : State) : untouched_outside ids s s.
Proof. intros j _. reflexivity. Qed.

Lemma untouched_outside_trans (ids : list Z) (a b c : State) :
  untouched_outside ids a b -> untouched_outside ids b c -> untouched_outside ids a c.
Proof. intros Hab Hbc j Hj. rewrite (Hbc j Hj). apply Hab. exact Hj. Qed.

Lemma untouched_outside_incl (ids ids' : list Z) (s s' : State) :
  incl ids' ids -> untouched_outside ids' s s' -> untouched_outside ids s s'.
Proof. intros Hincl Hu j Hj. apply Hu. intros Hin. apply Hj, Hincl, Hin. Qed.

Lemma same_users_untouched (ids : list Z) (s s' : State) :
  same_users s s' -> untouched_outside ids s s'.
Proof. intros Hsame j _. unfold find_user. rewrite Hsame. reflexivity. Qed.

Lemma keeps_weaken (R1 R2 : State -> State -> Prop) {A} (m : M A) :
  (forall s s', R1 s s' -> R2 s s') -> keeps R1 m -> keeps R2 m.
Proof. intros Himp Hm s. apply Himp, Hm. Qed.

(** A bind whose continuation may rely on what the first part returns. *)
Lemma keeps_bind_post (R : State -> State -> Prop) {A B} (Q : A -> Prop)
    (m : M A) (k : A -> M B) :
  (forall a b c, R a b -> R b c -> R a c) ->
  keeps R m ->
  (forall s a, snd (m s) = inr a -> Q a) ->
  (forall a, Q a -> keeps R (k a)) ->
  keeps R (bind m k).
Proof.
  intros Htrans Hm Hpost Hk s. unfold bind.
  specialize (Hm s). specialize (Hpost s).
  destruct (m s) as [s' [e | a]]; simpl in *.
  - exact Hm.
  - eapply Htrans; [exact Hm | apply Hk, Hpost; reflexivity].
Qed.

Lemma keeps_for_each_in (R : State -> State -> Prop) {A} (body : A -> M unit)
    (recs : list A) :
  (forall s, R s s) ->
  (forall a b c, R a b -> R b c -> R a c) ->
  (forall r, In r recs -> keeps R (body r)) ->
  keeps R (for_each body recs).
Proof.
  intros Hrefl Htrans. induction recs as [|r rest IH]; intros Hb; simpl.
  - apply keeps_ret, Hrefl.
  - apply keeps_bind; [exact Htrans | apply Hb; left; reflexivity |].
    intros _. apply IH. intros r' Hin. apply Hb. right. exact Hin.
Qed.

Lemma filtered_incl {A} (p : A -> M bool) (recs kept : list A) (s : State) :
  snd (filtered p recs s) = inr kept -> incl kept recs.
Proof.
  revert kept s. induction recs as [|r rest IH]; intros kept s; simpl.
  - intros [= <-]. intros x [].
  - unfold bind at 1. destruct (p r s) as [s1 [e|keep]]; [discriminate|].
    unfold bind at 1. destruct (filtered p rest s1) as [s2 [e|kept']] eqn:Hrest;
      [discriminate|].
    simpl. intros [= <-].
    assert (Hincl : incl kept' rest).
    { apply (IH kept' s1). rewrite Hrest. reflexivity. }
    destruct keep.
    + intros x [<- | Hx]; [left; reflexivity | right; apply Hincl, Hx].
    + intros x Hx. right. apply Hincl, Hx.
Qed.

Create HintDb users.

Ltac keeps_users :=
  repeat (first
    [ exact unchanged_refl
    | exact unchanged_trans
    | exact same_users_refl
    | exact same_users_trans
    | exact (untouched_outside_refl _)
    | exact (untouched_outside_trans _)
    | solve [auto 2 with users]
    | apply keeps_bind
    | apply keeps_ret
    | apply keeps_raise
    | apply keeps_get
    | apply keeps_lift
    | apply keeps_filtered
    | apply keeps_for_each
    | match goal with
      | |- forall _, _ => intros ?
      | |- keeps _ (if ?b then _ else _) => destruct b
      | |- keeps _ (match ?x with _ => _ end) => destruct x
      end ]).

(** What only reads. *)
Lemma read_user_unchanged (i : Z) : keeps unchanged (read_user i).
Proof. unfold read_user. keeps_users. Qed.

#[local] Hint Resolve read_user_unchanged : users.

Lemma saml_ids_unchanged (i : Z) : keeps unchanged (saml_ids i).
Proof. unfold saml_ids. keeps_users. Qed.

#[local] Hint Resolve saml_ids_unchanged : users.

Lemma allow_saml_and_password_unchanged : keeps unchanged _allow_saml_and_password.
Proof. unfold _allow_saml_and_password. keeps_users. Qed.

#[local] Hint Resolve allow_saml_and_password_unchanged : users.

Lemma mapped_login_unchanged (recs : list Z) : keeps unchanged (mapped_login recs).
Proof. induction recs as [|r rest IH]; simpl; keeps_users. Qed.

#[local] Hint Resolve mapped_login_unchanged : users.

Lemma password_conflict_unchanged (self : list Z) (user : Z) :
  keeps unchanged (password_conflict self user).
Proof. unfold password_conflict. keeps_users. Qed.

#[local] Hint Resolve password_conflict_unchanged : users.

Lemma password_is_false_unchanged (user : Z) : keeps unchanged (password_is_false user).
Proof. unfold password_is_false. keeps_users. Qed.

#[local] Hint Resolve password_is_false_unchanged : users.

Lemma password_to_remove_unchanged (rec : Z) : keeps unchanged (password_to_remove rec).
Proof. unfold password_to_remove. keeps_users. Qed.

#[local] Hint Resolve password_to_remove_unchanged : users.

Lemma has_saml_ids_unchanged (r : Z) : keeps unchanged (has_saml_ids r).
Proof. unfold has_saml_ids. keeps_users. Qed.

#[local] Hint Resolve has_saml_ids_unchanged : users.

Lemma gen_password_unchanged (env : Env) :
  keeps unchanged (_autoremove_password_if_saml_gen_password env).
Proof. unfold _autoremove_password_if_saml_gen_password. keeps_users. Qed.

#[local] Hint Resolve gen_password_unchanged : users.

Lemma unchanged_keeps (R : State -> State -> Prop) {A} (m : M A) :
  (forall s, R s s) -> keeps unchanged m -> keeps R m.
Proof. intros Hrefl Hm s. rewrite (Hm s). apply Hrefl. Qed.

(** The token backfill leaves the users alone. *)
Lemma ensure_saml_token_exists_same_users (self : list Z) :
  keeps same_users (_ensure_saml_token_exists self).
Proof.
  unfold _ensure_saml_token_exists.
  assert (Hread : forall A (m : M A), keeps unchanged m -> keeps same_users m).
  { intros A m. apply unchanged_keeps. exact same_users_refl. }
  assert (Htoken : forall record provider, keeps same_users (ensure_token record provider)).
  { intros record provider s. rewrite ensure_token_eq.
    destruct (search_token s record provider); reflexivity. }
  keeps_users; try (apply Hread; auto with users); try apply Htoken.
Qed.

Lemma find_user_update_users_other (ids : list Z) (f : User.t -> User.t)
    (s : State) (j : Z) :
  (forall x, User.id (f x) = User.id x) ->
  ~ In j ids ->
  find_user (update_users ids f s) j = find_user s j.
Proof.
  intros Hid Hj. unfold find_user, update_users. simpl.
  induction (res_users s) as [|x xs IH]; [reflexivity|]. simpl.
  destruct (mem_Z (User.id x) ids) eqn:Hmem.
  - rewrite Hid. destruct (User.id x =? j) eqn:Hx; [|exact IH].
    exfalso. apply Hj. apply Z.eqb_eq in Hx. subst j.
    unfold mem_Z in Hmem. apply existsb_exists in Hmem.
    destruct Hmem as (y & Hy & Heq). apply Z.eqb_eq in Heq. subst y. exact Hy.
  - destruct (User.id x =? j); [reflexivity | exact IH].
Qed.

Lemma modify_users_untouched (ids ids' : list Z) (f : User.t -> User.t) :
  (forall x, User.id (f x) = User.id x) ->
  incl ids' ids ->
  keeps (untouched_outside ids) (modify (update_users ids' f)).
Proof.
  intros Hid Hincl s j Hj. apply find_user_update_users_other; [exact Hid|].
  intros Hin. apply Hj, Hincl, Hin.
Qed.

Lemma reads_untouched (ids : list Z) {A} (m : M A) :
  keeps unchanged m -> keeps (untouched_outside ids) m.
Proof. apply unchanged_keeps. exact (untouched_outside_refl ids). Qed.

Lemma minus_incl (self other : list Z) : incl (minus self other) self.
Proof. intros x Hx. unfold minus in Hx. apply filter_In in Hx. tauto. Qed.

Lemma invalidate_cache_password_untouched (ids ids' : list Z) :
  incl ids' ids ->
  keeps (untouched_outside ids) (invalidate_cache_password ids').
Proof. intros Hincl. apply modify_users_untouched; [reflexivity | exact Hincl]. Qed.

(** Writing the links leaves the table [res.users] as it was. *)
Lemma write_saml_ids_same_users (v : pyval) (self : list Z) :
  keeps same_users (write_saml_ids v self).
Proof. destruct v; intros st; reflexivity. Qed.

Lemma super_set_password_untouched (ids recs : list Z) :
  incl recs ids ->
  keeps (untouched_outside ids) (super_set_password recs).
Proof.
  intros Hincl. unfold super_set_password.
  apply keeps_for_each_in;
    [exact (untouched_outside_refl ids) | exact (untouched_outside_trans ids) |].
  intros user Huser.
  apply keeps_bind; [exact (untouched_outside_trans ids) | |].
  - apply reads_untouched. auto with users.
  - assert (Hone : incl [user] ids) by (intros x [<- | []]; apply Hincl, Huser).
    intros u. destruct (User.password u).
    + apply keeps_bind; [exact (untouched_outside_trans ids) | |].
      * apply modify_users_untouched; [reflexivity | exact Hone].
      * intros _. apply invalidate_cache_password_untouched. exact Hone.
    + apply keeps_raise. exact (untouched_outside_refl ids).
Qed.

(** The password inverse writes the rows of its record set only. *)
Lemma set_password_untouched (self : list Z) :
  keeps (untouched_outside self) (_set_password self).
Proof.
  unfold _set_password.
  apply keeps_bind; [exact (untouched_outside_trans self) | |].
  { apply reads_untouched. auto with users. }
  intros allow.
  apply keeps_bind; [exact (untouched_outside_trans self) | |].
  { apply reads_untouched. keeps_users. }
  intros _.
  apply (keeps_bind_post (untouched_outside self) (fun blank => incl blank self));
    [exact (untouched_outside_trans self) | | |].
  - apply reads_untouched. keeps_users.
  - intros s blank Hblank. eapply filtered_incl. exact Hblank.
  - intros blank Hincl.
    apply keeps_bind; [exact (untouched_outside_trans self) | |].
    + destruct (nonempty (minus self blank)).
      * apply super_set_password_untouched. apply minus_incl.
      * apply keeps_ret. exact (untouched_outside_refl self).
    + intros _. destruct (nonempty blank).
      * apply keeps_bind; [exact (untouched_outside_trans self) | |].
        -- apply modify_users_untouched; [reflexivity | exact Hincl].
        -- intros _. apply invalidate_cache_password_untouched. exact Hincl.
      * apply keeps_ret. exact (untouched_outside_refl self).
Qed.

Lemma super_write_untouched (vals : gmap string pyval) (self : list Z) :
  keeps (untouched_outside self) (super_write vals self).
Proof.
  unfold super_write. destruct self as [|i rest].
  - apply keeps_ret. exact (untouched_outside_refl []).
  - set (self := i :: rest).
    apply keeps_bind; [exact (untouched_outside_trans self) | |].
    + apply keeps_for_each_in;
        [exact (untouched_outside_refl self) | exact (untouched_outside_trans self) |].
      intros r Hr.
      apply keeps_bind; [exact (untouched_outside_trans self) | |].
      * apply reads_untouched. auto with users.
      * intros _. apply modify_users_untouched; [apply assign_fields_id|].
        intros x [<- | []]. exact Hr.
    + intros _.
      apply keeps_bind; [exact (untouched_outside_trans self) | |].
      { destruct (vals !! "saml_ids").
        - apply (keeps_weaken same_users).
          + intros s s'. apply same_users_untouched.
          + apply write_saml_ids_same_users.
        - apply keeps_ret. exact (untouched_outside_refl self). }
      intros _.
      apply keeps_bind; [exact (untouched_outside_trans self) | |].
      * destruct (vals !! "password").
        -- apply set_password_untouched.
        -- apply keeps_ret. exact (untouched_outside_refl self).
      * intros _. apply keeps_ret. exact (untouched_outside_refl self).
Qed.

Lemma ensure_saml_token_exists_untouched (ids self : list Z) :
  keeps (untouched_outside ids) (_ensure_saml_token_exists self).
Proof.
  apply (keeps_weaken same_users).
  - intros s s'. apply same_users_untouched.
  - apply ensure_saml_token_exists_same_users.
Qed.

Lemma write_with_untouched (autoremove : Env -> list Z -> M unit)
    (env : Env) (vals : gmap string pyval) (self : list Z) :
  keeps (untouched_outside self) (autoremove env self) ->
  keeps (untouched_outside self) (write_with autoremove env vals self).
Proof.
  intros Hauto. unfold write_with.
  apply keeps_bind; [exact (untouched_outside_trans self) | |].
  { apply super_write_untouched. }
  intros result.
  apply keeps_bind; [exact (untouched_outside_trans self) | exact Hauto |].
  intros _.
  apply keeps_bind; [exact (untouched_outside_trans self) | |].
  { apply ensure_saml_token_exists_untouched. }
  intros _. apply keeps_ret. exact (untouched_outside_refl self).
Qed.

Lemma write_no_autoremove_untouched (env : Env) (vals : gmap string pyval)
    (self : list Z) :
  keeps (untouched_outside self) (write_no_autoremove env vals self).
Proof.
  apply write_with_untouched. apply keeps_ret. exact (untouched_outside_refl self).
Qed.

Lemma fst_bind_ret {A B} (m : M A) (b : B) (s : State) :
  fst ((m;; ret b) s) = fst (m s).
Proof. unfold bind, ret. destruct (m s) as [s' [e|a]]; reflexivity. Qed.

(** What [filtered] keeps passed the test, when the test only reads. *)
Lemma filtered_kept {A} (p : A -> M bool) (recs kept : list A) (s : State) :
  (forall r, keeps unchanged (p r)) ->
  snd (filtered p recs s) = inr kept ->
  forall k, In k kept -> In k recs /\ snd (p k s) = inr true.
Proof.
  intros Hread. revert kept. induction recs as [|r rest IH]; intros kept; simpl.
  - intros [= <-] k [].
  - unfold bind at 1. pose proof (Hread r s) as Hr.
    destruct (p r s) as [s1 [e|keep]] eqn:Hp; [discriminate|].
    simpl in Hr. unfold unchanged in Hr. subst s1.
    unfold bind at 1. destruct (filtered p rest s) as [s2 [e|kept']] eqn:Hrest;
      [discriminate|].
    simpl. intros [= <-] k Hk.
    assert (Hrec : In k kept' -> In k rest /\ snd (p k s) = inr true).
    { apply IH. reflexivity. }
    destruct keep.
    + destruct Hk as [<- | Hk].
      * split; [left; reflexivity | rewrite Hp; reflexivity].
      * destruct (Hrec Hk). split; [right|]; assumption.
    + destruct (Hrec Hk). split; [right|]; assumption.
Qed.

Lemma filtered_unchanged {A} (p : A -> M bool) (recs : list A) :
  (forall r, keeps unchanged (p r)) -> keeps unchanged (filtered p recs).
Proof. intros Hp. apply keeps_filtered; [exact unchanged_refl | exact unchanged_trans | exact Hp]. Qed.

(** A record [password_to_remove] accepts is not the superuser, has SAML
    ids, and its password field reads non-empty. *)
Lemma password_to_remove_true (rec : Z) (s : State) :
  snd (password_to_remove rec s) = inr true ->
  rec <> SUPERUSER_ID
  /\ saml_ids_of s rec <> []
  /\ exists u, find_user s rec = Some u /\ char_truthy (User.password u) = true.
Proof.
  destruct (find_user s rec) as [u|] eqn:Hfind.
  - rewrite (password_to_remove_eq rec s u Hfind). cbn [snd]. intros [= Hkeep].
    apply andb_true_iff in Hkeep. destruct Hkeep as [Hkeep Hpw].
    apply andb_true_iff in Hkeep. destruct Hkeep as [Hsuper Hlinks].
    split; [|split].
    + intros ->. discriminate.
    + destruct (saml_ids_of s rec); [discriminate | discriminate].
    + exists u. split; [reflexivity | exact Hpw].
  - unfold password_to_remove. destruct (negb (rec =? SUPERUSER_ID)); [|discriminate].
    unfold bind at 1. rewrite saml_ids_eq, Hfind. discriminate.
Qed.

(** The rows [_autoremove_password_if_saml] may write. *)
Lemma autoremove_password_untouched (env : Env) (self : list Z) :
  keeps (untouched_outside self) (_autoremove_password_if_saml env self).
Proof.
  unfold _autoremove_password_if_saml.
  destruct (no_autoremove_password env).
  { apply keeps_ret. exact (untouched_outside_refl self). }
  apply keeps_bind; [exact (untouched_outside_trans self) | |].
  { apply reads_untouched. auto with users. }
  intros allow. destruct allow.
  { apply keeps_ret. exact (untouched_outside_refl self). }
  apply (keeps_bind_post (untouched_outside self) (fun kept => incl kept self));
    [exact (untouched_outside_trans self) | | |].
  - apply reads_untouched. apply filtered_unchanged. auto with users.
  - intros s kept Hkept. eapply filtered_incl. exact Hkept.
  - intros kept Hincl. destruct (nonempty kept).
    + apply keeps_bind; [exact (untouched_outside_trans self) | |].
      { apply reads_untouched. auto with users. }
      intros new_password.
      apply keeps_bind; [exact (untouched_outside_trans self) | |].
      * apply (keeps_weaken (untouched_outside kept)).
        -- intros s s'. apply untouched_outside_incl. exact Hincl.
        -- apply write_no_autoremove_untouched.
      * intros _. apply keeps_ret. exact (untouched_outside_refl self).
    + apply keeps_ret. exact (untouched_outside_refl self).
Qed.

(** X1: [write] on a record set leaves the row of every user outside the
    record set as it was, whether it returns or raises: the inherited
    write, the password inverse, the password removal and the token
    backfill all stay inside the record set. *)
Theorem write_leaves_other_users (env : Env) (vals : gmap string pyval)
    (self : list Z) (s : State) (j : Z) :
  ~ In j self ->
  find_user (fst (write env vals self s)) j = find_user s j.
Proof.
  intros Hj.
  assert (Hkeeps : keeps (untouched_outside self) (write env vals self)).
  { apply write_with_untouched. apply autoremove_password_untouched. }
  apply (Hkeeps s j Hj).
Qed.

Lemma write_leaves_other_users_witness :
  ~ In 6 [5]
  /\ find_user (fst (write Sample.env {[ "password" := PyStr "x" ]} [5] Sample.db)) 6
     = Some Sample.bob.
Proof.
  assert (Hout : ~ In 6 [5]) by (intros [H | []]; discriminate H).
  split; [exact Hout|].
  apply (write_leaves_other_users Sample.env {[ "password" := PyStr "x" ]} [5]
           Sample.db 6 Hout).
Defined.



(** ** Tokens created by [write] *)

Lemma same_tokens_refl (s : State) : same_tokens s s.
Proof. split; reflexivity. Qed.

Lemma same_tokens_trans (a b c : State) :
  same_tokens a b -> same_tokens b c -> same_tokens a c.
Proof. intros [H1 H2] [H3 H4]. split; congruence. Qed.

Lemma placeholder_for_links (s s' : State) (self : list Z) (t : Token.t) :
  res_users_saml s' = res_users_saml s ->
  placeholder_for s' self t -> placeholder_for s self t.
Proof.
  intros Hlinks (Hnone & Hin & l & Hl & Hp). unfold saml_ids_of in Hl.
  rewrite Hlinks in Hl. repeat split; try assumption. exists l. split; assumption.
Qed.

Lemma backfilled_for_refl (self : list Z) (s : State) : backfilled_for self s s.
Proof.
  split; [reflexivity|]. exists []. split; [symmetry; apply app_nil_r | constructor].
Qed.

Lemma backfilled_for_trans (self : list Z) (a b c : State) :
  backfilled_for self a b -> backfilled_for self b c -> backfilled_for self a c.
Proof.
  intros (Hl1 & e1 & Ht1 & Hf1) (Hl2 & e2 & Ht2 & Hf2).
  split; [congruence|]. exists (e1 ++ e2). split.
  - rewrite Ht2, Ht1. symmetry. apply app_assoc.
  - apply Forall_app. split; [exact Hf1|].
    eapply List.Forall_impl; [|exact Hf2].
    intros t. apply placeholder_for_links. exact Hl1.
Qed.

Lemma backfilled_for_incl (self self' : list Z) (s s' : State) :
  incl self' self -> backfilled_for self' s s' -> backfilled_for self s s'.
Proof.
  intros Hincl (Hl & extra & Ht & Hf). split; [exact Hl|].
  exists extra. split; [exact Ht|].
  eapply List.Forall_impl; [|exact Hf].
  intros t (Hnone & Hin & Hlinked). repeat split; try assumption. apply Hincl, Hin.
Qed.

Lemma same_tokens_backfilled_for (self : list Z) (s s' : State) :
  same_tokens s s' -> backfilled_for self s s'.
Proof.
  intros [Ht Hl]. split; [exact Hl|].
  exists []. split; [rewrite Ht; symmetry; apply app_nil_r | constructor].
Qed.

Lemma reads_same_tokens {A} (m : M A) : keeps unchanged m -> keeps same_tokens m.
Proof. apply unchanged_keeps. exact same_tokens_refl. Qed.

Lemma modify_users_same_tokens (ids : list Z) (f : User.t -> User.t) :
  keeps same_tokens (modify (update_users ids f)).
Proof. intros s. split; reflexivity. Qed.

Lemma super_set_password_same_tokens (recs : list Z) :
  keeps same_tokens (super_set_password recs).
Proof.
  unfold super_set_password.
  apply keeps_for_each; [exact same_tokens_refl | exact same_tokens_trans |].
  intros user.
  apply keeps_bind; [exact same_tokens_trans | |].
  - apply reads_same_tokens. auto with users.
  - intros u. destruct (User.password u).
    + apply keeps_bind; [exact same_tokens_trans | |].
      * apply modify_users_same_tokens.
      * intros _. apply modify_users_same_tokens.
    + apply keeps_raise. exact same_tokens_refl.
Qed.

Lemma set_password_same_tokens (self : list Z) : keeps same_tokens (_set_password self).
Proof.
  unfold _set_password.
  apply keeps_bind; [exact same_tokens_trans | |].
  { apply reads_same_tokens. auto with users. }
  intros allow.
  apply keeps_bind; [exact same_tokens_trans | |].
  { apply reads_same_tokens. keeps_users. }
  intros _.
  apply keeps_bind; [exact same_tokens_trans | |].
  { apply reads_same_tokens. keeps_users. }
  intros blank.
  apply keeps_bind; [exact same_tokens_trans | |].
  - destruct (nonempty (minus self blank)).
    + apply super_set_password_same_tokens.
    + apply keeps_ret. exact same_tokens_refl.
  - intros _. destruct (nonempty blank).
    + apply keeps_bind; [exact same_tokens_trans | |].
      * apply modify_users_same_tokens.
      * intros _. apply modify_users_same_tokens.
    + apply keeps_ret. exact same_tokens_refl.
Qed.

Lemma assign_records_same_tokens (vals : gmap string pyval) (self : list Z) :
  keeps same_tokens
    (for_each (fun i => read_user i;; modify (update_users [i] (assign_fields vals)))
              self).
Proof.
  apply keeps_for_each; [exact same_tokens_refl | exact same_tokens_trans |].
  intros r.
  apply keeps_bind; [exact same_tokens_trans | |].
  - apply reads_same_tokens. auto with users.
  - intros _. apply modify_users_same_tokens.
Qed.

(** The inherited [write] leaves the links as they are unless [vals] sets
    [saml_ids]. *)
Lemma super_write_same_tokens (vals : gmap string pyval) (self : list Z) :
  vals !! "saml_ids" = None ->
  keeps same_tokens (super_write vals self).
Proof.
  intros Hids. unfold super_write. rewrite Hids. destruct self as [|i rest].
  - apply keeps_ret. exact same_tokens_refl.
  - apply keeps_bind; [exact same_tokens_trans | |].
    + apply assign_records_same_tokens.
    + intros _.
      apply keeps_bind; [exact same_tokens_trans | |].
      { apply keeps_ret. exact same_tokens_refl. }
      intros _.
      apply keeps_bind; [exact same_tokens_trans | |].
      * destruct (vals !! "password").
        -- apply set_password_same_tokens.
        -- apply keeps_ret. exact same_tokens_refl.
      * intros _. apply keeps_ret. exact same_tokens_refl.
Qed.

Lemma tokens_as_before_trans (a b c : State) :
  tokens_as_before a b -> tokens_as_before b c -> tokens_as_before a c.
Proof. unfold tokens_as_before. congruence. Qed.

Lemma same_tokens_as_before (s s' : State) :
  same_tokens s s' -> tokens_as_before s s'.
Proof. intros [Ht _]. exact Ht. Qed.

(** The inherited [write] creates no token, whatever [vals] sets. *)
Lemma super_write_tokens (vals : gmap string pyval) (self : list Z) :
  keeps tokens_as_before (super_write vals self).
Proof.
  unfold super_write. destruct self as [|i rest].
  - apply keeps_ret. reflexivity.
  - apply keeps_bind; [exact tokens_as_before_trans | |].
    + apply (keeps_weaken same_tokens); [exact same_tokens_as_before|].
      apply assign_records_same_tokens.
    + intros _.
      apply keeps_bind; [exact tokens_as_before_trans | |].
      { destruct (vals !! "saml_ids") as [v|].
        - destruct v; intros st; reflexivity.
        - apply keeps_ret. reflexivity. }
      intros _.
      apply keeps_bind; [exact tokens_as_before_trans | |].
      * apply (keeps_weaken same_tokens); [exact same_tokens_as_before|].
        destruct (vals !! "password").
        -- apply set_password_same_tokens.
        -- apply keeps_ret. exact same_tokens_refl.
      * intros _. apply keeps_ret. reflexivity.
Qed.

Lemma ensure_token_for (self : list Z) (record provider : Z) (s : State) :
  In record self ->
  (exists l, In l (saml_ids_of s record) /\ SamlId.saml_provider_id l = provider) ->
  backfilled_for self s (fst (ensure_token record provider s)).
Proof.
  intros Hin Hlinked. rewrite ensure_token_eq.
  destruct (search_token s record provider); [|apply backfilled_for_refl].
  split; [reflexivity|].
  exists [Token.mk (token_seq s) record provider None].
  split; [reflexivity|]. constructor; [|constructor].
  repeat split; assumption.
Qed.

Lemma ensure_links_for (self : list Z) (record : Z) (links : list SamlId.t)
    (s : State) :
  In record self ->
  incl links (saml_ids_of s record) ->
  backfilled_for self s (fst (ensure_links record links s)).
Proof.
  intros Hin. revert s. induction links as [|l rest IH]; intros s Hincl.
  - apply backfilled_for_refl.
  - unfold ensure_links. cbn [for_each]. fold (ensure_links record rest).
    unfold bind.
    assert (Hstep : backfilled_for self s
              (fst (ensure_token record (SamlId.saml_provider_id l) s))).
    { apply ensure_token_for; [exact Hin|]. exists l.
      split; [apply Hincl; left; reflexivity | reflexivity]. }
    destruct (ensure_token_spec record (SamlId.saml_provider_id l) s)
      as (Hret & Hrows & _).
    destruct (ensure_token record (SamlId.saml_provider_id l) s) as [s1 r].
    cbn [fst snd] in *. subst r.
    eapply backfilled_for_trans; [exact Hstep|].
    apply IH. rewrite (same_rows_saml_ids_of s s1 record Hrows).
    intros x Hx. apply Hincl. right. exact Hx.
Qed.

Lemma ensure_records_for (self recs : list Z) (s : State) :
  incl recs self ->
  backfilled_for self s (fst (ensure_records recs s)).
Proof.
  revert s. induction recs as [|r rest IH]; intros s Hincl.
  - apply backfilled_for_refl.
  - rewrite ensure_records_cons.
    destruct (find_user s r); [|apply backfilled_for_refl].
    assert (Hstep : backfilled_for self s (fst (ensure_links r (saml_ids_of s r) s))).
    { apply ensure_links_for; [apply Hincl; left; reflexivity|]. intros x Hx. exact Hx. }
    destruct (ensure_links_spec r (saml_ids_of s r) s) as (Hret & _).
    destruct (ensure_links r (saml_ids_of s r) s) as [s1 res].
    cbn [fst snd] in *. subst res.
    eapply backfilled_for_trans; [exact Hstep|].
    apply IH. intros x Hx. apply Hincl. right. exact Hx.
Qed.

Lemma ensure_saml_token_exists_for (self recs : list Z) :
  incl recs self ->
  keeps (backfilled_for self) (_ensure_saml_token_exists recs).
Proof.
  intros Hincl s. rewrite ensure_saml_token_exists_eq.
  destruct (snd (with_saml_ids recs s)) as [e|kept] eqn:Hkept;
    [apply backfilled_for_refl|].
  apply ensure_records_for.
  destruct (with_saml_ids_kept recs kept s Hkept) as [_ Hin].
  intros x Hx. apply Hincl. apply Hin. exact Hx.
Qed.

(** What [write] runs once the inherited [write] has returned. *)
Lemma write_hooks_for (autoremove : Env -> list Z -> M unit)
    (env : Env) (self : list Z) (result : bool) :
  keeps (backfilled_for self) (autoremove env self) ->
  keeps (backfilled_for self)
        (autoremove env self;; _ensure_saml_token_exists self;; ret result).
Proof.
  intros Hauto.
  apply keeps_bind; [exact (backfilled_for_trans self) | exact Hauto |].
  intros _.
  apply keeps_bind; [exact (backfilled_for_trans self) | |].
  { apply ensure_saml_token_exists_for. intros x Hx. exact Hx. }
  intros _. apply keeps_ret. exact (backfilled_for_refl self).
Qed.

Lemma write_with_for (autoremove : Env -> list Z -> M unit)
    (env : Env) (vals : gmap string pyval) (self : list Z) :
  vals !! "saml_ids" = None ->
  keeps (backfilled_for self) (autoremove env self) ->
  keeps (backfilled_for self) (write_with autoremove env vals self).
Proof.
  intros Hids Hauto. unfold write_with.
  apply keeps_bind; [exact (backfilled_for_trans self) | |].
  { apply (keeps_weaken same_tokens); [apply same_tokens_backfilled_for|].
    apply super_write_same_tokens. exact Hids. }
  intros result. apply write_hooks_for. exact Hauto.
Qed.

Lemma autoremove_password_for (env : Env) (self : list Z) :
  keeps (backfilled_for self) (_autoremove_password_if_saml env self).
Proof.
  unfold _autoremove_password_if_saml.
  assert (Hread : forall A (m : M A), keeps unchanged m -> keeps (backfilled_for self) m).
  { intros A m. apply unchanged_keeps. exact (backfilled_for_refl self). }
  destruct (no_autoremove_password env).
  { apply keeps_ret. exact (backfilled_for_refl self). }
  apply keeps_bind; [exact (backfilled_for_trans self) | |].
  { apply Hread. auto with users. }
  intros allow. destruct allow.
  { apply keeps_ret. exact (backfilled_for_refl self). }
  apply (keeps_bind_post (backfilled_for self) (fun kept => incl kept self));
    [exact (backfilled_for_trans self) | | |].
  - apply Hread. apply filtered_unchanged. auto with users.
  - intros s kept Hkept. eapply filtered_incl. exact Hkept.
  - intros kept Hincl. destruct (nonempty kept).
    + apply keeps_bind; [exact (backfilled_for_trans self) | |].
      { apply Hread. auto with users. }
      intros new_password.
      apply keeps_bind; [exact (backfilled_for_trans self) | |].
      * apply (keeps_weaken (backfilled_for kept)).
        -- intros s s'. apply backfilled_for_incl. exact Hincl.
        -- apply write_with_for.
           ++ apply lookup_singleton_ne. discriminate.
           ++ apply keeps_ret. exact (backfilled_for_refl kept).
      * intros _. apply keeps_ret. exact (backfilled_for_refl self).
    + apply keeps_ret. exact (backfilled_for_refl self).
Qed.

Lemma backfilled_no_token_before (ts ts' extra : list Token.t) :
  backfill ts ts' -> ts' = ts ++ extra ->
  Forall (fun t => pair_tokens ts (Token.user_id t) (Token.saml_provider_id t) = [])
         extra.
Proof.
  intros Hb. revert extra. induction Hb as [ts | ts ts' t Hb IH Hnone Hfree];
    intros extra Heq.
  - assert (Hnil : extra = []).
    { apply (app_inv_head ts). rewrite app_nil_r. symmetry. exact Heq. }
    subst extra. constructor.
  - destruct (backfill_appended ts ts' Hb) as (e1 & -> & _).
    rewrite <- app_assoc in Heq. apply app_inv_head in Heq. subst extra.
    apply Forall_app. split; [apply IH; reflexivity|].
    constructor; [|constructor].
    rewrite pair_tokens_app in Hfree. apply app_eq_nil in Hfree. tauto.
Qed.

(** X3: whatever [write] does, returning or raising, and whatever [vals]
    sets, it leaves the existing tokens as they are and adds only tokens
    without a value, each for a user of the record set and a provider this
    user is linked to once the write is done, and only where that user and
    provider had no token; it logs nothing and leaves the configuration as
    it is, and it leaves the links as they are when [vals] does not set
    [saml_ids]. *)
Theorem write_adds_placeholders_only (env : Env) (vals : gmap string pyval)
    (self : list Z) (s : State) :
  let s' := fst (write env vals self s) in
  (exists extra,
     auth_saml_token s' = auth_saml_token s ++ extra
     /\ Forall (placeholder_for s' self) extra
     /\ Forall (fun t => search_token s (Token.user_id t) (Token.saml_provider_id t)
                         = []) extra)
  /\ logger s' = logger s
  /\ ir_config_parameter s' = ir_config_parameter s
  /\ (vals !! "saml_ids" = None -> res_users_saml s' = res_users_saml s).
Proof.
  intros s'.
  destruct (write_backfilled env vals self s) as (Hb & Hlog & Hconfig & _).
  fold s' in Hb, Hlog, Hconfig.
  assert (Hfor : exists s1,
             tokens_as_before s s1 /\ backfilled_for self s1 s'
             /\ (vals !! "saml_ids" = None -> res_users_saml s1 = res_users_saml s)).
  { exists (fst (super_write vals self s)).
    split; [apply super_write_tokens|]. split.
    - subst s'. unfold write, write_with, bind.
      destruct (super_write vals self s) as [s1 [e|result]]; cbn [fst].
      + apply backfilled_for_refl.
      + apply (write_hooks_for _ env self result (autoremove_password_for env self) s1).
    - intros Hids. apply (super_write_same_tokens vals self Hids s). }
  destruct Hfor as (s1 & Htokens & (Hlinks & extra & Hext & Hfor) & Hkept).
  split; [|split; [exact Hlog | split; [exact Hconfig|]]].
  - rewrite Htokens in Hext.
    exists extra. split; [exact Hext|]. split.
    + eapply List.Forall_impl; [|exact Hfor].
      intros t. apply placeholder_for_links. symmetry. exact Hlinks.
    + apply (backfilled_no_token_before _ _ extra Hb Hext).
  - intros Hids. rewrite Hlinks. apply Hkept. exact Hids.
Qed.

Lemma write_adds_placeholders_only_witness :
  fst (write Sample.env {[ "login" := PyStr "alice2" ]} [5] Sample.db_unlinked)
  = update_users [5] (set_login (Some "alice2")) Sample.db_unlinked
  /\ fst (write Sample.env {[ "saml_ids" := PyFalse ]} [5] Sample.db_stored)
     = set_links [SamlId.mk 2 2 7 "adm"; SamlId.mk 3 6 7 "bcd"] Sample.db_stored
  /\ exists extra,
       auth_saml_token
         (fst (write Sample.env {[ "login" := PyStr "alice2" ]} [5] Sample.db_stored))
       = auth_saml_token Sample.db_stored ++ extra
       /\ Forall (placeholder_for
                    (fst (write Sample.env {[ "login" := PyStr "alice2" ]} [5]
                                Sample.db_stored)) [5]) extra
       /\ Forall (fun t => search_token Sample.db_stored (Token.user_id t)
                                        (Token.saml_provider_id t) = []) extra.
Proof.
  split; [reflexivity|]. split; [reflexivity|].
  apply (write_adds_placeholders_only Sample.env {[ "login" := PyStr "alice2" ]} [5]
           Sample.db_stored).
Defined.

(** ** The token backfill: what it creates and when it raises *)

(** X4: [_ensure_saml_token_exists] leaves the users and the links as they
    are and adds only tokens without a value, each for a record of the
    record set and a provider that record is linked to, and only where the
    record and the provider had no token. *)
Theorem ensure_creates_missing_linked_only (self : list Z) (s : State) :
  let s' := fst (_ensure_saml_token_exists self s) in
  (exists extra,
     auth_saml_token s' = auth_saml_token s ++ extra
     /\ Forall (placeholder_for s self) extra
     /\ Forall (fun t => search_token s (Token.user_id t) (Token.saml_provider_id t)
                         = []) extra)
  /\ res_users s' = res_users s
  /\ res_users_saml s' = res_users_saml s.
Proof.
  intros s'.
  destruct (ensure_saml_token_exists_for self self (fun x Hx => Hx) s)
    as (Hlinks & extra & Hext & Hfor).
  destruct (ensure_saml_token_exists_backfilled self s) as (Hb & _).
  fold s' in Hlinks, Hext, Hb.
  split; [|split; [apply (ensure_saml_token_exists_same_users self s) | exact Hlinks]].
  exists extra. split; [exact Hext|]. split; [exact Hfor|].
  apply (backfilled_no_token_before _ _ extra Hb Hext).
Qed.

Lemma with_saml_ids_raises (self : list Z) (s : State) (e : exn) :
  snd (with_saml_ids self s) = inl e ->
  exists r, In r self /\ find_user s r = None /\ e = MissingError "res.users" r.
Proof.
  induction self as [|r rest IH]; [discriminate|].
  rewrite with_saml_ids_cons.
  destruct (find_user s r) eqn:Hfind.
  - destruct (with_saml_ids rest s) as [s' [e'|kept]]; cbn [snd] in *; [|discriminate].
    intros [= <-]. destruct (IH eq_refl) as (r' & Hin & Hnone & He).
    exists r'. split; [right; exact Hin | split; assumption].
  - cbn [snd]. intros [= <-]. exists r.
    split; [left; reflexivity | split; [exact Hfind | reflexivity]].
Qed.

(** X5: [_ensure_saml_token_exists] raises only when a record of the
    record set has no row in [res.users]; the exception is the
    [MissingError] of that record and no token has been created.  When
    every record has its row it returns. *)
Theorem ensure_raises_before_creating (self : list Z) (s : State) :
  (forall e, snd (_ensure_saml_token_exists self s) = inl e ->
     fst (_ensure_saml_token_exists self s) = s
     /\ exists r, In r self /\ find_user s r = None
                  /\ e = MissingError "res.users" r)
  /\ (all_exist s self -> snd (_ensure_saml_token_exists self s) = inr tt).
Proof.
  split.
  - intros e. rewrite ensure_saml_token_exists_eq.
    destruct (snd (with_saml_ids self s)) as [e'|kept] eqn:Hkept.
    + cbn [fst snd]. intros [= <-]. split; [reflexivity|].
      apply (with_saml_ids_raises self s e' Hkept).
    + destruct (with_saml_ids_kept self kept s Hkept) as [Hexist Hin].
      assert (Hexist_kept : all_exist s kept).
      { intros r Hr. apply Hexist. apply Hin. exact Hr. }
      destruct (ensure_records_spec kept s Hexist_kept) as (Hret & _).
      rewrite Hret. discriminate.
  - intros Hexist. apply (ensure_saml_token_exists_returns self s Hexist).
Qed.

Lemma ensure_raises_before_creating_witness :
  snd (_ensure_saml_token_exists [5; 9] Sample.db) = inl (MissingError "res.users" 9)
  /\ fst (_ensure_saml_token_exists [5; 9] Sample.db) = Sample.db
  /\ snd (_ensure_saml_token_exists [5; 6] Sample.db) = inr tt.
Proof.
  destruct (ensure_raises_before_creating [5; 9] Sample.db) as [Hraise _].
  destruct (ensure_raises_before_creating [5; 6] Sample.db) as [_ Hret].
  split; [reflexivity|]. split.
  - apply (Hraise (MissingError "res.users" 9)). reflexivity.
  - apply Hret. intros r [<- | [<- | []]]; discriminate.
Defined.

(** ** After a [write] or a [create] that returns *)

Lemma bind_returned {A B} (m : M A) (k : A -> M B) (s s' : State) (b : B) :
  bind m k s = (s', inr b) ->
  exists s1 a, m s = (s1, inr a) /\ k a s1 = (s', inr b).
Proof.
  unfold bind. destruct (m s) as [s1 [e|a]]; [discriminate|].
  intros Hk. exists s1, a. split; [reflexivity | exact Hk].
Qed.

Lemma ensure_covers (self : list Z) (s s' : State) :
  _ensure_saml_token_exists self s = (s', inr tt) ->
  covered s' self /\ all_exist s' self.
Proof.
  rewrite ensure_saml_token_exists_eq.
  destruct (snd (with_saml_ids self s)) as [e|kept] eqn:Hkept; [discriminate|].
  intros Hrun.
  destruct (with_saml_ids_kept self kept s Hkept) as [Hexist Hin].
  assert (Hexist_kept : all_exist s kept).
  { intros r Hr. apply Hexist. apply Hin. exact Hr. }
  destruct (ensure_records_spec kept s Hexist_kept) as (_ & Hrows & Hcov & _).
  rewrite Hrun in Hrows, Hcov. cbn [fst] in Hrows, Hcov. split.
  - intros r l Hr Hl. apply Hcov; [|exact Hl]. apply Hin. split; [exact Hr|].
    rewrite (same_rows_saml_ids_of s s' r Hrows) in Hl.
    destruct (saml_ids_of s r); [destruct Hl | discriminate].
  - intros r Hr. rewrite (same_rows_find_user s s' r Hrows). apply Hexist, Hr.
Qed.

(** X6: when [write] returns, every record of the record set has its row
    and every SAML id of every record has a token for its provider; the
    same holds for the records [create] returns. *)
Theorem write_and_create_leave_tokens
    (super_create : list (gmap string pyval) -> M (list Z))
    (env : Env) (s s' : State) :
  (forall vals self r,
     write env vals self s = (s', inr r) -> covered s' self /\ all_exist s' self)
  /\ (forall vals_list result,
        create super_create env vals_list s = (s', inr result) ->
        covered s' result /\ all_exist s' result).
Proof.
  split.
  - intros vals self r Hrun. unfold write, write_with in Hrun.
    apply bind_returned in Hrun. destruct Hrun as (s1 & result & _ & Hrun).
    apply bind_returned in Hrun. destruct Hrun as (s2 & [] & _ & Hrun).
    apply bind_returned in Hrun. destruct Hrun as (s3 & [] & Hensure & Hret).
    injection Hret as <- _. apply (ensure_covers self s2 s3 Hensure).
  - intros vals_list result Hrun. unfold create in Hrun.
    apply bind_returned in Hrun. destruct Hrun as (s1 & created & _ & Hrun).
    apply bind_returned in Hrun. destruct Hrun as (s2 & [] & _ & Hrun).
    apply bind_returned in Hrun. destruct Hrun as (s3 & [] & Hensure & Hret).
    injection Hret as <- <-. apply (ensure_covers created s2 s3 Hensure).
Qed.

Lemma write_and_create_leave_tokens_witness :
  let run := write Sample.env {[ "login" := PyStr "alice2" ]} [5] Sample.db in
  snd run = inr true
  /\ covered (fst run) [5]
  /\ search_token (fst run) 5 7 = [Token.mk 1 5 7 None].
Proof.
  intros run. split; [reflexivity|]. split; [|reflexivity].
  destruct (write_and_create_leave_tokens (fun _ => ret []) Sample.env Sample.db
              (fst run)) as [Hwrite _].
  apply (Hwrite {[ "login" := PyStr "alice2" ]} [5] true). reflexivity.
Defined.

(** ** [auth_saml] and the tokens it leaves *)

(** X7: [auth_saml] writes nothing unless the validation returned a
    non-empty subject that has a link for the provider: an exception of
    the validator goes through with the state untouched, a missing or empty
    subject is denied with the state untouched, and in every other case
    either the state is untouched or it is the state [signin_user] leaves
    for the user of the first matching link. *)
Theorem auth_saml_writes_only_when_resolved
    (validate : State -> Z -> string -> option string -> exn + validation)
    (env : Env) (provider : Z) (saml_response : string) (base_url : option string)
    (s : State) :
  let run := auth_saml validate env provider saml_response base_url s in
  match validate s provider saml_response base_url with
  | inl e => run = (s, inl e)
  | inr v =>
      match user_id v with
      | None | Some "" => run = (s, inl AccessDenied)
      | Some uid =>
          match saml_matches s uid provider with
          | [] => run = (s, inl AccessDenied)
          | l :: _ =>
              fst run
              = fst (signin_user env provider v saml_response (SamlId.user_id l) s)
          end
      end
  end.
Proof.
  intros run. subst run. rewrite auth_saml_eq.
  destruct (validate s provider saml_response base_url) as [e|v]; [reflexivity|].
  destruct (user_id v) as [uid|] eqn:Huid; [|reflexivity].
  destruct uid as [|c uid']; [reflexivity|].
  cbn [char_truthy str_truthy negb].
  destruct (saml_matches s (String c uid') provider) as [|l rest] eqn:Hm.
  - rewrite (signin_no_match env provider v saml_response _ s Huid Hm). reflexivity.
  - rewrite (signin_first_match env provider v saml_response _ s l rest Huid Hm).
    destruct (signin_user env provider v saml_response (SamlId.user_id l) s)
      as [s' [e|login]]; [reflexivity|].
    destruct (negb (char_truthy login)); reflexivity.
Qed.

(** The tokens [signin_user] leaves for its user and provider. *)
Lemma signin_user_tokens (env : Env) (provider : Z) (v : validation)
    (saml_response : string) (user : Z) (s : State) :
  let s' := fst (signin_user env provider v saml_response user s) in
  search_token s' user provider <> []
  /\ Forall (fun t => Token.saml_access_token t = Some saml_response)
            (search_token s' user provider).
Proof.
  intros s'.
  destruct (signin_token_sync_spec user provider saml_response s)
    as (_ & _ & Hsome & Hvalue & _).
  destruct (signin_user_backfilled env provider v saml_response user s) as [Hb _].
  fold s' in Hb. rewrite !search_token_pair_tokens in *.
  rewrite (backfill_pair_kept _ _ user provider Hb Hsome). split; assumption.
Qed.

Lemma auth_saml_returned
    (validate : State -> Z -> string -> option string -> exn + validation)
    (env : Env) (provider : Z) (saml_response : string) (base_url : option string)
    (s s' : State) (r : string * string * string) :
  auth_saml validate env provider saml_response base_url s = (s', inr r) ->
  exists v uid l rest,
    validate s provider saml_response base_url = inr v
    /\ user_id v = Some uid
    /\ saml_matches s uid provider = l :: rest
    /\ s' = fst (signin_user env provider v saml_response (SamlId.user_id l) s).
Proof.
  rewrite auth_saml_eq.
  destruct (validate s provider saml_response base_url) as [e|v]; [discriminate|].
  destruct (user_id v) as [uid|] eqn:Huid; [|discriminate].
  destruct (negb (char_truthy (Some uid))); [discriminate|].
  destruct (saml_matches s uid provider) as [|l rest] eqn:Hm.
  - rewrite (signin_no_match env provider v saml_response _ s Huid Hm). discriminate.
  - rewrite (signin_first_match env provider v saml_response _ s l rest Huid Hm).
    intros Hrun. exists v, uid, l, rest.
    split; [reflexivity|]. split; [exact Huid|]. split; [exact Hm|].
    destruct (signin_user env provider v saml_response (SamlId.user_id l) s)
      as [s1 [e|login]]; [discriminate|].
    destruct (negb (char_truthy login)); [discriminate|].
    injection Hrun as <- _. reflexivity.
Qed.

(** X8: the response of a sign-in that returned is accepted as a password
    afterwards: when [auth_saml] has returned for a subject whose first
    link belongs to the session's user, and the inherited check denies the
    response (or finds it too long) without writing tokens,
    [_check_credentials] returns. *)
Theorem signin_response_is_a_credential
    (validate : State -> Z -> string -> option string -> exn + validation)
    (super_check : list Z -> string -> gmap string pyval -> M unit)
    (env env' : Env) (provider : Z) (saml_response : string)
    (base_url : option string) (s s' s'' : State) (r : string * string * string)
    (v : validation) (subject : string) (l : SamlId.t) (rest : list SamlId.t)
    (self : list Z) (user_agent_env : gmap string pyval) (e : exn) :
  validate s provider saml_response base_url = inr v ->
  user_id v = Some subject ->
  saml_matches s subject provider = l :: rest ->
  auth_saml validate env provider saml_response base_url s = (s', inr r) ->
  uid env' = SamlId.user_id l ->
  super_check self saml_response user_agent_env s' = (s'', inl e) ->
  caught_by_check_credentials e = true ->
  auth_saml_token s'' = auth_saml_token s' ->
  _check_credentials super_check env' self saml_response user_agent_env s'
  = (s'', inr tt).
Proof.
  intros Hval Huid Hm Hrun Henv Hsuper Hcaught Htokens.
  destruct (auth_saml_returned validate env provider saml_response base_url s s' r Hrun)
    as (v' & uid' & l' & rest' & Hval' & Huid' & Hm' & Hs').
  rewrite Hval in Hval'. injection Hval' as <-.
  rewrite Huid in Huid'. injection Huid' as <-.
  rewrite Hm in Hm'. injection Hm' as <- <-.
  destruct (signin_user_tokens env provider v saml_response (SamlId.user_id l) s)
    as [Hsome Hvalue].
  rewrite <- Hs' in Hsome, Hvalue.
  unfold _check_credentials. rewrite Hsuper, Hcaught.
  assert (Hfound : nonempty (search_token_by_value s'' (uid env') saml_response) = true).
  { apply search_token_by_value_nonempty.
    destruct (search_token s' (SamlId.user_id l) provider) as [|t ts] eqn:Hsearch;
      [congruence|].
    assert (Hin : In t (search_token s' (SamlId.user_id l) provider))
      by (rewrite Hsearch; left; reflexivity).
    unfold search_token in Hin. apply filter_In in Hin. destruct Hin as [Hin Hpair].
    apply andb_true_iff in Hpair. destruct Hpair as [_ Hu]. apply Z.eqb_eq in Hu.
    exists t. rewrite Htokens. split; [exact Hin|]. split; [congruence|].
    inversion Hvalue; assumption. }
  rewrite Hfound. reflexivity.
Qed.

Lemma signin_response_is_a_credential_witness :
  let s' := fst (auth_saml Sample.validate Sample.env 7 "blob" None Sample.db) in
  auth_saml Sample.validate Sample.env 7 "blob" None Sample.db
  = (s', inr ("db", "alice", "blob"))
  /\ _check_credentials Sample.deny Sample.env [5] "blob" ∅ s' = (s', inr tt).
Proof.
  intros s'. split; [reflexivity|].
  apply (signin_response_is_a_credential Sample.validate Sample.deny Sample.env
           Sample.env 7 "blob" None Sample.db s' s' ("db", "alice", "blob")
           (mkValidation (Some "abc") ∅) "abc" (SamlId.mk 1 5 7 "abc") []
           [5] ∅ AccessDenied); reflexivity.
Defined.

Lemma search_token_by_value_app (s : State) (extra : list Token.t) (user : Z)
    (password : string) (ts : list Token.t) :
  auth_saml_token s = ts ++ extra ->
  Forall (fun t => Token.saml_access_token t = None) extra ->
  search_token_by_value s user password
  = List.filter (fun t => (Token.user_id t =? user)
                          && bool_decide (Token.saml_access_token t = Some password))%bool
                ts.
Proof.
  intros Heq Hnone. unfold search_token_by_value. rewrite Heq, List.filter_app.
  assert (Hextra : List.filter
            (fun t => (Token.user_id t =? user)
                      && bool_decide (Token.saml_access_token t = Some password))%bool
            extra = []).
  { clear Heq. induction Hnone as [|t extra Ht _ IH]; [reflexivity|]. simpl.
    rewrite Ht. rewrite (bool_decide_eq_false_2 (None = Some password));
      [|discriminate].
    rewrite andb_false_r. exact IH. }
  rewrite Hextra. apply app_nil_r.
Qed.

(** X9: a token created by the backfill is no credential: when no token
    of the session's user holds the presented secret, it holds none after
    any [write], so the fallback of [_check_credentials] still raises
    [AccessDenied]. *)
Theorem write_grants_no_credential
    (super_check : list Z -> string -> gmap string pyval -> M unit)
    (env env' : Env) (vals : gmap string pyval) (written self : list Z)
    (password : string) (user_agent_env : gmap string pyval)
    (s s2 : State) (e : exn) :
  let s1 := fst (write env vals written s) in
  search_token_by_value s (uid env') password = [] ->
  super_check self password user_agent_env s1 = (s2, inl e) ->
  caught_by_check_credentials e = true ->
  auth_saml_token s2 = auth_saml_token s1 ->
  _check_credentials super_check env' self password user_agent_env s1
  = (s2, inl AccessDenied).
Proof.
  intros s1 Hnone Hsuper Hcaught Htokens.
  destruct (write_backfilled env vals written s) as (Hb & _). fold s1 in Hb.
  destruct (backfill_appended _ _ Hb) as (extra & Hext & Hvalueless).
  unfold _check_credentials. rewrite Hsuper, Hcaught.
  assert (Hsearch : search_token_by_value s2 (uid env') password = []).
  { rewrite (search_token_by_value_app s2 extra (uid env') password (auth_saml_token s));
      [exact Hnone | congruence | exact Hvalueless]. }
  rewrite Hsearch. reflexivity.
Qed.

Lemma write_grants_no_credential_witness :
  let s1 := fst (write Sample.env {[ "login" := PyStr "alice2" ]} [5] Sample.db) in
  auth_saml_token s1 = [Token.mk 1 5 7 None]
  /\ _check_credentials Sample.deny Sample.env [5] "" ∅ s1 = (s1, inl AccessDenied).
Proof.
  intros s1. split; [reflexivity|].
  apply (write_grants_no_credential Sample.deny Sample.env Sample.env
           {[ "login" := PyStr "alice2" ]} [5] [5] "" ∅ Sample.db s1 AccessDenied);
    reflexivity.
Defined.

(** ** Sign-in and the other tokens *)

Lemma overwrite_other (found : list Token.t) (ts : list Token.t) (value : string)
    (t : Token.t) :
  List.NoDup (map Token.id ts) ->
  incl found ts ->
  In t ts ->
  ~ In t found ->
  overwrite (map Token.id found) value t = t.
Proof.
  intros Hnodup Hincl Hin Hnot. unfold overwrite.
  destruct (mem_Z (Token.id t) (map Token.id found)) eqn:Hmem; [|reflexivity].
  exfalso. apply Hnot. unfold mem_Z in Hmem. apply existsb_exists in Hmem.
  destruct Hmem as (i & Hi & Heq). apply Z.eqb_eq in Heq. subst i.
  apply in_map_iff in Hi. destruct Hi as (t' & Hid & Hin').
  assert (Hsame : t' = t).
  { assert (Hin2 : In t' ts) by (apply Hincl; exact Hin').
    revert Hnodup Hin Hin2 Hid. clear. induction ts as [|x xs IH]; [intros _ []|].
    simpl. intros Hnodup [-> | Hin] [-> | Hin2] Hid.
    - reflexivity.
    - apply List.NoDup_cons_iff in Hnodup. destruct Hnodup as [Hx _]. exfalso. apply Hx.
      rewrite <- Hid. apply in_map. exact Hin2.
    - apply List.NoDup_cons_iff in Hnodup. destruct Hnodup as [Hx _]. exfalso. apply Hx.
      rewrite Hid. apply in_map. exact Hin.
    - apply List.NoDup_cons_iff in Hnodup. destruct Hnodup as [_ Hxs].
      apply IH; assumption. }
  subst t'. exact Hin'.
Qed.

Lemma signin_user_keeps_other_tokens (env : Env) (provider : Z) (v : validation)
    (saml_response : string) (user : Z) (s : State) (t : Token.t) :
  List.NoDup (map Token.id (auth_saml_token s)) ->
  In t (auth_saml_token s) ->
  ~ (Token.user_id t = user /\ Token.saml_provider_id t = provider) ->
  In t (auth_saml_token (fst (signin_user env provider v saml_response user s))).
Proof.
  intros Hnodup Hin Hother.
  destruct (signin_user_backfilled env provider v saml_response user s) as [Hb _].
  destruct (backfill_appended _ _ Hb) as (extra & -> & _).
  apply in_or_app. left.
  rewrite signin_token_sync_eq.
  destruct (search_token s user provider) as [|t0 found] eqn:Hsearch; cbn [fst].
  - cbn [auth_saml_token set_tokens]. apply in_or_app. left. exact Hin.
  - cbn [auth_saml_token set_tokens]. apply in_map_iff. exists t.
    split; [|exact Hin].
    apply (overwrite_other (t0 :: found) (auth_saml_token s)); try assumption.
    + intros x Hx. rewrite <- Hsearch in Hx. unfold search_token in Hx.
      apply filter_In in Hx. tauto.
    + intros Hfound. rewrite <- Hsearch in Hfound. unfold search_token in Hfound.
      apply filter_In in Hfound. destruct Hfound as [_ Hpair].
      apply andb_true_iff in Hpair. destruct Hpair as [Hp Hu].
      apply Hother. split; lia.
Qed.

(** X10: with unique token ids, a sign-in through a provider leaves every
    token of another provider, and every token of a user that has no link
    for the provider, in the table with its value, whether [auth_saml]
    returns or raises. *)
Theorem signin_leaves_other_tokens
    (validate : State -> Z -> string -> option string -> exn + validation)
    (env : Env) (provider : Z) (saml_response : string) (base_url : option string)
    (s : State) (t : Token.t) :
  List.NoDup (map Token.id (auth_saml_token s)) ->
  In t (auth_saml_token s) ->
  (Token.saml_provider_id t <> provider
   \/ forall l, In l (res_users_saml s) ->
                SamlId.saml_provider_id l = provider ->
                SamlId.user_id l <> Token.user_id t) ->
  In t (auth_saml_token
          (fst (auth_saml validate env provider saml_response base_url s))).
Proof.
  intros Hnodup Hin Hother.
  destruct (auth_saml_state validate env provider saml_response base_url s)
    as [-> | (v & _ & ->)]; [exact Hin|].
  destruct (user_id v) as [subject|] eqn:Hsubject;
    [|unfold _auth_saml_signin; rewrite Hsubject; exact Hin].
  destruct (saml_matches s subject provider) as [|l rest] eqn:Hm.
  - rewrite (signin_no_match env provider v saml_response subject s Hsubject Hm).
    exact Hin.
  - rewrite (signin_first_match env provider v saml_response subject s l rest
               Hsubject Hm).
    apply signin_user_keeps_other_tokens; [exact Hnodup | exact Hin |].
    intros [Hu Hp].
    assert (Hl : In l (saml_matches s subject provider)) by (rewrite Hm; left; reflexivity).
    unfold saml_matches in Hl. apply filter_In in Hl. destruct Hl as [Hl Hdom].
    apply andb_true_iff in Hdom. destruct Hdom as [_ Hprov]. apply Z.eqb_eq in Hprov.
    destruct Hother as [Hne | Hnolink]; [congruence|].
    apply (Hnolink l Hl Hprov). congruence.
Qed.

Lemma signin_leaves_other_tokens_witness :
  let s := mkState [Sample.admin; Sample.alice; Sample.bob] Sample.links
                   [Token.mk 1 5 7 (Some "old"); Token.mk 2 6 8 (Some "bob8")]
                   3 ∅ (Some 2) [] [] in
  auth_saml_token (fst (auth_saml Sample.validate Sample.env 7 "blob" None s))
  = [Token.mk 1 5 7 (Some "blob"); Token.mk 2 6 8 (Some "bob8")]
  /\ In (Token.mk 2 6 8 (Some "bob8"))
        (auth_saml_token (fst (auth_saml Sample.validate Sample.env 7 "blob" None s))).
Proof.
  intros s. split; [reflexivity|].
  apply (signin_leaves_other_tokens Sample.validate Sample.env 7 "blob" None s
           (Token.mk 2 6 8 (Some "bob8"))).
  - repeat constructor; simpl; intuition discriminate.
  - right. left. reflexivity.
  - left. discriminate.
Defined.

(** ** A parameter that is not a boolean word *)

Lemma bind_never_returns {A B} (m : M A) (k : A -> M B) (s : State) :
  keeps backfilled m ->
  (forall a s1, backfilled s s1 -> exists e, snd (k a s1) = inl e) ->
  exists e, snd (bind m k s) = inl e.
Proof.
  intros Hm Hk. unfold bind. pose proof (Hm s) as Hs.
  destruct (m s) as [s1 [e|a]]; [exists e; reflexivity|].
  apply Hk. exact Hs.
Qed.

Lemma assign_records_backfilled (vals : gmap string pyval) (self : list Z) :
  keeps backfilled
    (for_each (fun i => read_user i;; modify (update_users [i] (assign_fields vals)))
              self).
Proof. keeps_backfilled. Qed.

(** X11: when the configuration parameter holds a value [str2bool] does not
    know, [_allow_saml_and_password] raises [ValueError]; so does
    [_set_password] before it stores anything, and so does
    [_autoremove_password_if_saml] outside the flagged context.  Then no
    [write] outside the flagged context returns, and in any context no
    [write] that sets [password] on a record set that is not empty
    returns. *)
Theorem unknown_parameter_blocks_writes (env : Env) (vals : gmap string pyval)
    (self : list Z) (s : State) (e : exn) :
  _allow_saml_and_password s = (s, inl e) ->
  e = ValueError "Use 0/1/yes/no/true/false/on/off"
  /\ _set_password self s = (s, inl e)
  /\ (no_autoremove_password env = false ->
      _autoremove_password_if_saml env self s = (s, inl e)
      /\ exists e', snd (write env vals self s) = inl e')
  /\ (forall v, vals !! "password" = Some v -> self <> [] ->
      exists e', snd (write env vals self s) = inl e').
Proof.
  intros Hallow.
  assert (Hset : forall s1, backfilled s s1 -> _set_password self s1 = (s1, inl e)).
  { intros s1 (_ & _ & Hconfig & _). unfold _set_password. apply bind_raises.
    apply (allow_saml_and_password_stable s s1 (inl e) Hconfig Hallow). }
  split; [|split; [|split]].
  - rewrite allow_saml_and_password_eq in Hallow. unfold str2bool in Hallow.
    destruct (mem_string _ _); [discriminate|]. congruence.
  - apply Hset. apply backfilled_refl.
  - intros Hflag.
    assert (Hauto : forall s1, ir_config_parameter s1 = ir_config_parameter s ->
              _autoremove_password_if_saml env self s1 = (s1, inl e)).
    { intros s1 Hconfig. unfold _autoremove_password_if_saml. rewrite Hflag.
      apply bind_raises.
      apply (allow_saml_and_password_stable s s1 (inl e) Hconfig Hallow). }
    split; [apply Hauto; reflexivity|].
    unfold write, write_with. unfold bind at 1.
    destruct (super_write_backfilled vals self s) as (_ & _ & Hconfig & _).
    destruct (super_write vals self s) as [s1 [e1|r]]; [exists e1; reflexivity|].
    cbn [fst] in Hconfig. rewrite (bind_raises _ _ _ _ _ (Hauto s1 Hconfig)).
    exists e. reflexivity.
  - intros v Hv Hself.
    assert (Hsuper : exists e', snd (super_write vals self s) = inl e').
    { unfold super_write. rewrite Hv. destruct self as [|i rest]; [congruence|].
      apply bind_never_returns; [apply assign_records_backfilled|].
      intros _ s1 Hs1.
      apply bind_never_returns;
        [destruct (vals !! "saml_ids"); auto with frame;
         apply keeps_ret, backfilled_refl|].
      intros _ s2 Hs2.
      rewrite (bind_raises _ _ _ _ _
                 (Hset s2 (backfilled_trans _ _ _ Hs1 Hs2))).
      exists e. reflexivity. }
    destruct Hsuper as [e' Hraise]. exists e'.
    unfold write, write_with, bind.
    destruct (super_write vals self s) as [s1 [e1|r]]; [exact Hraise | discriminate].
Qed.

Lemma unknown_parameter_blocks_writes_witness :
  let s := mkState [Sample.alice] Sample.links [] 1
             {[ "auth_saml.allow_saml_uid_and_internal_password" := "maybe" ]}
             (Some 2) [] [] in
  _allow_saml_and_password s = (s, inl (ValueError "Use 0/1/yes/no/true/false/on/off"))
  /\ _set_password [5] s = (s, inl (ValueError "Use 0/1/yes/no/true/false/on/off"))
  /\ (exists e', snd (write Sample.env {[ "login" := PyStr "a" ]} [5] s) = inl e')
  /\ snd (write Sample.env_no_autoremove {[ "login" := PyStr "a" ]} [5] s) = inr true
  /\ exists e', snd (write Sample.env_no_autoremove {[ "password" := PyStr "x" ]} [5] s)
                = inl e'.
Proof.
  intros s.
  assert (Hallow : _allow_saml_and_password s
                   = (s, inl (ValueError "Use 0/1/yes/no/true/false/on/off")))
    by reflexivity.
  destruct (unknown_parameter_blocks_writes Sample.env {[ "login" := PyStr "a" ]} [5] s
              _ Hallow) as (_ & Hset & Hwrite & _).
  destruct (unknown_parameter_blocks_writes Sample.env_no_autoremove
              {[ "password" := PyStr "x" ]} [5] s _ Hallow) as (_ & _ & _ & Hpassword).
  split; [exact Hallow|]. split; [exact Hset|].
  split; [destruct (Hwrite eq_refl) as [_ Hraise]; exact Hraise|].
  split; [reflexivity|].
  apply (Hpassword (PyStr "x")); [reflexivity | discriminate].
Defined.

(** ** Sign-in with mapped attributes *)

Lemma same_passwords_refl (s : State) : same_passwords s s.
Proof. intros j. reflexivity. Qed.

Lemma same_passwords_trans (a b c : State) :
  same_passwords a b -> same_passwords b c -> same_passwords a c.
Proof. intros H1 H2 j. rewrite H2. apply H1. Qed.

Lemma same_users_passwords (s s' : State) :
  same_users s s' -> same_passwords s s'.
Proof. intros Husers j. unfold find_user. rewrite Husers. reflexivity. Qed.

Lemma find_user_update_users_at (ids : list Z) (f : User.t -> User.t)
    (s : State) (j : Z) :
  (forall x, User.id (f x) = User.id x) ->
  find_user (update_users ids f s) j
  = (fun u => if mem_Z j ids then f u else u) <$> find_user s j.
Proof.
  intros Hid. unfold find_user, update_users. simpl.
  induction (res_users s) as [|x xs IH]; [reflexivity|]. simpl.
  destruct (User.id x =? j) eqn:Hx.
  - apply Z.eqb_eq in Hx. subst j.
    destruct (mem_Z (User.id x) ids); [rewrite Hid|]; rewrite Z.eqb_refl; reflexivity.
  - destruct (mem_Z (User.id x) ids); [rewrite Hid|]; rewrite Hx; exact IH.
Qed.

(** The inherited [write] of fields other than [password] leaves the
    password field and the password column of every row. *)
Lemma super_write_same_passwords (vals : gmap string pyval) (self : list Z) :
  vals !! "password" = None ->
  keeps same_passwords (super_write vals self).
Proof.
  intros Hnone. unfold super_write. rewrite Hnone. destruct self as [|i rest].
  - apply keeps_ret, same_passwords_refl.
  - apply keeps_bind; [exact same_passwords_trans | |].
    + apply keeps_for_each; [exact same_passwords_refl | exact same_passwords_trans |].
      intros r.
      apply keeps_bind; [exact same_passwords_trans | |].
      * apply (unchanged_keeps same_passwords); [exact same_passwords_refl|].
        auto with users.
      * intros _ s j. cbn [modify fst].
        rewrite (find_user_update_users_at [r] (assign_fields vals) s j
                   (assign_fields_id vals)).
        destruct (find_user s j) as [u|]; [|reflexivity].
        cbn [fmap option_fmap option_map].
        destruct (mem_Z j [r]); [|reflexivity].
        rewrite (assign_fields_keeps_password vals u Hnone), assign_fields_column.
        reflexivity.
    + intros _.
      apply keeps_bind; [exact same_passwords_trans | |].
      { destruct (vals !! "saml_ids").
        - apply (keeps_weaken same_users); [exact same_users_passwords|].
          apply write_saml_ids_same_users.
        - apply keeps_ret, same_passwords_refl. }
      intros _.
      apply keeps_bind; [exact same_passwords_trans | |];
        [|intros _]; apply keeps_ret, same_passwords_refl.
Qed.

(** [_autoremove_password_if_saml] on records whose password field reads
    empty leaves the state as it is, whatever it returns. *)
Lemma autoremove_password_unread (env : Env) (self : list Z) (s : State) :
  (forall r, In r self ->
     exists u, find_user s r = Some u /\ char_truthy (User.password u) = false) ->
  fst (_autoremove_password_if_saml env self s) = s.
Proof.
  intros Hempty.
  destruct (_allow_saml_and_password s) as [s0 [e|b]] eqn:Hallow.
  - assert (Hs0 : s0 = s).
    { rewrite allow_saml_and_password_eq in Hallow. congruence. }
    subst s0. unfold _autoremove_password_if_saml.
    destruct (no_autoremove_password env); [reflexivity|].
    rewrite (bind_raises _ _ _ _ _ Hallow). reflexivity.
  - assert (Hs0 : s0 = s).
    { rewrite allow_saml_and_password_eq in Hallow. congruence. }
    subst s0. rewrite (autoremove_password_nothing env self s b Hallow Hempty).
    reflexivity.
Qed.

(** A [write] that sets no password, on records whose password field reads
    empty, leaves the password field and the stored password of every
    user, whether it returns or raises. *)
Lemma write_same_passwords (env : Env) (vals : gmap string pyval) (self : list Z)
    (s : State) :
  vals !! "password" = None ->
  (forall r, In r self ->
     exists u, find_user s r = Some u /\ char_truthy (User.password u) = false) ->
  same_passwords s (fst (write env vals self s)).
Proof.
  intros Hnone Hempty. unfold write, write_with. unfold bind at 1.
  pose proof (super_write_same_passwords vals self Hnone s) as Hsuper.
  destruct (super_write vals self s) as [s1 [e|result]]; cbn [fst] in *;
    [exact Hsuper|].
  assert (Hempty1 : forall r, In r self ->
            exists u, find_user s1 r = Some u /\ char_truthy (User.password u) = false).
  { intros r Hr. destruct (Hempty r Hr) as (u & Hfind & Hpw).
    specialize (Hsuper r). rewrite Hfind in Hsuper.
    destruct (find_user s1 r) as [u1|]; [|discriminate].
    cbn [fmap option_fmap option_map] in Hsuper. injection Hsuper as Hfield _.
    exists u1. split; [reflexivity|]. rewrite Hfield. exact Hpw. }
  unfold bind at 1.
  pose proof (autoremove_password_unread env self s1 Hempty1) as Hauto.
  destruct (_autoremove_password_if_saml env self s1) as [s2 [e|[]]];
    cbn [fst] in *; subst s2; [exact Hsuper|].
  unfold bind.
  pose proof (ensure_saml_token_exists_same_users self s1) as Hensure.
  destruct (_ensure_saml_token_exists self s1) as [s3 [e|[]]]; cbn [fst] in *;
    (eapply same_passwords_trans; [exact Hsuper|]);
    apply same_users_passwords; exact Hensure.
Qed.



(** ** The generated password of [password_security] *)

(** X13: with [password_security] installed and coexistence disallowed,
    [_autoremove_password_if_saml] on one user that is not exempt and has a
    SAML id does nothing under a context that carries
    [auth_saml_no_autoremove_password], and nothing when the password field
    of the user reads empty (as it does once a password has been written,
    the field being computed and not stored).  Outside that context, on a
    user whose password field reads a non-empty value, it writes the
    generated password, which goes through the password inverse like any
    other: the step raises the [ValidationError] of [_set_password] and the
    password column keeps its value. *)
Theorem autoremove_raises_with_password_security (env : Env) (s : State) (i : Z)
    (u : User.t) :
  _allow_saml_and_password s = (s, inr false) ->
  mem_string "password_security" (installed_modules s) = true ->
  generate_password env <> "" ->
  find_user s i = Some u ->
  i ∉ _saml_allowed_user_ids s ->
  saml_ids_of s i <> [] ->
  let run := _autoremove_password_if_saml env [i] s in
  (no_autoremove_password env = true -> run = (s, inr tt))
  /\ (char_truthy (User.password u) = false -> run = (s, inr tt))
  /\ (no_autoremove_password env = false ->
      char_truthy (User.password u) = true ->
      snd run = inl (ValidationError [User.login u])
      /\ (User.password_column <$> find_user (fst run) i)
         = Some (User.password_column u)).
Proof.
  intros Hallow Hmodules Hgenerated Hfind Hnot Hlinks run. subst run.
  split; [|split].
  { intros Hflag. unfold _autoremove_password_if_saml. rewrite Hflag. reflexivity. }
  { intros Hpw. apply (autoremove_password_nothing env [i] s false Hallow).
    intros r [<- | []]. exists u. split; assumption. }
  intros Hflag Hpw.
  unfold _autoremove_password_if_saml. rewrite Hflag.
  rewrite (bind_returns _ _ _ _ _ Hallow).
  assert (Hsuper : i <> SUPERUSER_ID).
  { intros ->. apply Hnot. apply superuser_allowed. }
  assert (Hkeep : password_to_remove i s = (s, inr true)).
  { rewrite (password_to_remove_eq i s u Hfind), Hpw.
    destruct (saml_ids_of s i); [congruence|].
    apply Z.eqb_neq in Hsuper. rewrite Hsuper. reflexivity. }
  rewrite (bind_returns _ _ _ _ _ (filtered_one _ _ _ _ Hkeep)).
  cbn [nonempty].
  assert (Hgen : _autoremove_password_if_saml_gen_password env s
                 = (s, inr (PyStr (generate_password env)))).
  { unfold _autoremove_password_if_saml_gen_password. unfold bind, get.
    rewrite Hmodules. reflexivity. }
  rewrite (bind_returns _ _ _ _ _ Hgen).
  set (vals := ({[ "password" := PyStr (generate_password env) ]} : gmap string pyval)).
  assert (Hvals : vals !! "password" = Some (PyStr (generate_password env)))
    by apply lookup_singleton_eq.
  assert (Hids : vals !! "saml_ids" = None)
    by (apply lookup_singleton_ne; discriminate).
  assert (Htruthy : char_truthy (to_char (PyStr (generate_password env))) = true).
  { cbn [to_char char_truthy]. destruct (generate_password env); [congruence | reflexivity]. }
  destruct (write_password_conflict (with_no_autoremove_password env) vals
              (PyStr (generate_password env)) s i u Hallow Hfind Hlinks Hnot
              Hids Hvals Htruthy) as [Hraise Hcolumn].
  rewrite (write_under_flag _ vals [i] s (with_no_autoremove_password_flag env))
    in Hraise.
  rewrite (bind_raises _ _ _ _ _ Hraise). cbn [fst snd].
  split; [reflexivity | exact Hcolumn].
Qed.

Lemma autoremove_raises_with_password_security_witness :
  let stored :=
    mkState [Sample.admin_stored; Sample.alice_stored; Sample.bob_stored]
            Sample.links [] 1 ∅ (Some 2) ["password_security"] [] in
  (find_user Sample.db_password_security 5 = Some Sample.alice
   /\ snd (_autoremove_password_if_saml Sample.env [5] Sample.db_password_security)
      = inl (ValidationError [Some "alice"]))
  /\ (find_user stored 5 = Some Sample.alice_stored
      /\ _autoremove_password_if_saml Sample.env [5] stored = (stored, inr tt)).
Proof.
  intros stored.
  assert (Hnot : 5 ∉ _saml_allowed_user_ids Sample.db_password_security).
  { apply (bool_decide_eq_false_1
             (5 ∈ _saml_allowed_user_ids Sample.db_password_security)).
    vm_compute. reflexivity. }
  assert (Hgenerated : generate_password Sample.env <> "") by discriminate.
  assert (Hlinks : saml_ids_of Sample.db_password_security 5 <> []) by discriminate.
  destruct (autoremove_raises_with_password_security Sample.env
              Sample.db_password_security 5 Sample.alice eq_refl eq_refl Hgenerated
              eq_refl Hnot Hlinks) as (_ & _ & Hraise).
  destruct (autoremove_raises_with_password_security Sample.env stored 5
              Sample.alice_stored eq_refl eq_refl Hgenerated eq_refl Hnot Hlinks)
    as (_ & Hempty & _).
  split.
  - split; [reflexivity|]. apply (Hraise eq_refl eq_refl).
  - split; [reflexivity|]. apply Hempty. reflexivity.
Defined.

(** ** The password inverse on a record set *)

Lemma filtered_pure {A} (p : A -> M bool) (q : A -> bool) (recs : list A)
    (s : State) :
  (forall r, In r recs -> p r s = (s, inr (q r))) ->
  filtered p recs s = (s, inr (List.filter q recs)).
Proof.
  induction recs as [|r rest IH]; intros Hp; [reflexivity|]. cbn [filtered List.filter].
  rewrite (bind_returns _ _ _ _ _ (Hp r (or_introl eq_refl))).
  rewrite (bind_returns _ _ _ _ _ (IH (fun x Hx => Hp x (or_intror Hx)))).
  destruct (q r); reflexivity.
Qed.

Lemma mem_Z_not_In (i : Z) (l : list Z) : ~ In i l -> mem_Z i l = false.
Proof.
  intros Hnot. destruct (mem_Z i l) eqn:Hmem; [|reflexivity].
  exfalso. apply Hnot. unfold mem_Z in Hmem. apply existsb_exists in Hmem.
  destruct Hmem as (y & Hy & Heq). apply Z.eqb_eq in Heq. subst y. exact Hy.
Qed.

(** The two statements that store the column of the rows of [ids] and drop
    the cached value. *)
Lemma find_user_stored (ids : list Z) (c : option pwhash) (s : State) (j : Z) :
  find_user (update_users ids (set_password (Some ""))
               (update_users ids (set_password_column c) s)) j
  = (fun u => if mem_Z j ids
              then set_password (Some "") (set_password_column c u) else u)
      <$> find_user s j.
Proof.
  rewrite (find_user_update_users_at ids (set_password (Some "")) _ j
             (fun x => eq_refl)).
  rewrite (find_user_update_users_at ids (set_password_column c) s j
             (fun x => eq_refl)).
  destruct (find_user s j) as [u|]; [|reflexivity].
  cbn [fmap option_fmap option_map]. destruct (mem_Z j ids); reflexivity.
Qed.

(** What the inherited [_set_password] leaves of the rows of a record set
    without repetition. *)
Lemma super_set_password_spec (recs : list Z) (s : State) :
  List.NoDup recs ->
  (forall i, In i recs ->
     exists u p, find_user s i = Some u /\ User.password u = Some p) ->
  snd (super_set_password recs s) = inr tt
  /\ forall j,
       find_user (fst (super_set_password recs s)) j
       = (fun u => if mem_Z j recs then stored u else u) <$> find_user s j.
Proof.
  revert s. induction recs as [|i rest IH]; intros s Hnodup Hrecs.
  - split; [reflexivity|]. intros j. cbn. destruct (find_user s j); reflexivity.
  - apply List.NoDup_cons_iff in Hnodup. destruct Hnodup as [Hfresh Hnodup].
    destruct (Hrecs i (or_introl eq_refl)) as (u & p & Hfind & Hpw).
    set (s1 := update_users [i] (set_password (Some ""))
                 (update_users [i] (set_password_column (Some (Crypt p))) s)).
    assert (Hstep : super_set_password (i :: rest) s = super_set_password rest s1).
    { unfold super_set_password. cbn [for_each].
      unfold bind at 1. unfold bind at 1. rewrite read_user_eq, Hfind, Hpw.
      reflexivity. }
    rewrite Hstep.
    assert (Hat : forall j, find_user s1 j
              = (fun x => if mem_Z j [i]
                          then set_password (Some "")
                                 (set_password_column (Some (Crypt p)) x)
                          else x) <$> find_user s j).
    { intros j. apply find_user_stored. }
    assert (Hother : forall k, In k rest -> find_user s1 k = find_user s k).
    { intros k Hk. rewrite Hat.
      assert (Hne : mem_Z k [i] = false).
      { apply mem_Z_not_In. intros [<- | []]. exact (Hfresh Hk). }
      rewrite Hne. destruct (find_user s k); reflexivity. }
    assert (Hrest : forall k, In k rest ->
              exists u' p', find_user s1 k = Some u' /\ User.password u' = Some p').
    { intros k Hk. rewrite (Hother k Hk). apply Hrecs. right. exact Hk. }
    destruct (IH s1 Hnodup Hrest) as [Hret Hfinal]. split; [exact Hret|].
    intros j. rewrite Hfinal, Hat.
    destruct (find_user s j) as [uj|] eqn:Hfj; [|reflexivity].
    cbn [fmap option_fmap option_map]. f_equal.
    destruct (Z.eq_dec j i) as [-> | Hji].
    + rewrite Hfind in Hfj. injection Hfj as <-.
      rewrite (mem_Z_not_In i rest Hfresh).
      rewrite (mem_Z_In i [i]), (mem_Z_In i (i :: rest)) by (left; reflexivity).
      unfold stored. rewrite Hpw. reflexivity.
    + assert (Hone : mem_Z j [i] = false).
      { apply mem_Z_not_In. intros [Heq | []]. congruence. }
      assert (Hcons : mem_Z j (i :: rest) = mem_Z j rest).
      { unfold mem_Z. cbn [existsb]. apply Z.eqb_neq in Hji. rewrite Hji.
        reflexivity. }
      rewrite Hone, Hcons. reflexivity.
Qed.

(** X14: when nothing conflicts (coexistence is allowed, or no record has
    a SAML id, or the record set is one exempt user), [_set_password] on a
    set of existing records without repetition returns and leaves the
    password column of every record as the hash of its password value, or
    NULL when that value is [False]; the password field of every record
    reads [''] afterwards. *)
Theorem set_password_stores (self : list Z) (s : State) (b : bool) :
  List.NoDup self ->
  all_exist s self ->
  _allow_saml_and_password s = (s, inr b) ->
  b = true
  \/ (forall i, In i self -> saml_ids_of s i = [])
  \/ (exists i, self = [i] /\ i ∈ _saml_allowed_user_ids s) ->
  let run := _set_password self s in
  snd run = inr tt
  /\ forall i u, In i self -> find_user s i = Some u ->
       find_user (fst run) i
       = Some (User.mk i (User.login u) (Some "") (Crypt <$> User.password u)).
Proof.
  intros Hnodup Hexist Hallow Hfree run. subst run.
  unfold _set_password. rewrite (bind_returns _ _ _ _ _ Hallow).
  assert (Hcheck :
    (if negb b then
       let* saml_users := filtered (password_conflict self) self in
       if nonempty saml_users then
         let* logins := mapped_login saml_users in
         raise (ValidationError logins)
       else ret tt
     else ret tt) s = (s, inr tt)).
  { destruct b; [reflexivity|]. destruct Hfree as [Hb | Hfree]; [discriminate|].
    cbn [negb].
    assert (Hnever : forall r, In r self ->
              password_conflict self r s = (s, inr false)).
    { intros r Hr.
      destruct (find_user s r) as [ur|] eqn:Hfr; [|exfalso; exact (Hexist r Hr Hfr)].
      rewrite (password_conflict_eq self r s ur Hfr).
      destruct Hfree as [Hnolinks | (i & -> & Hexempt)].
      - rewrite (Hnolinks r Hr). reflexivity.
      - cbn [record_id not_in_allowed].
        rewrite (bool_decide_eq_true_2 _ Hexempt).
        destruct (nonempty (saml_ids_of s r)); reflexivity. }
    rewrite (bind_returns _ _ _ _ _
               (filtered_pure (password_conflict self) (fun _ => false) self s
                  Hnever)).
    assert (Hnone : List.filter (fun _ : Z => false) self = []).
    { clear. induction self; [reflexivity | exact IHself]. }
    rewrite Hnone. reflexivity. }
  rewrite (bind_returns _ _ _ _ _ Hcheck).
  set (is_false := fun i => match find_user s i with
                            | Some u => match User.password u with
                                        | None => true
                                        | Some _ => false
                                        end
                            | None => false
                            end).
  assert (Hblank : filtered password_is_false self s
                   = (s, inr (List.filter is_false self))).
  { apply filtered_pure. intros r Hr. unfold is_false.
    destruct (find_user s r) as [ur|] eqn:Hfr; [|exfalso; exact (Hexist r Hr Hfr)].
    apply (password_is_false_eq r s ur Hfr). }
  rewrite (bind_returns _ _ _ _ _ Hblank).
  set (blank := List.filter is_false self).
  set (non_blank := minus self blank).
  assert (Hnon_blank : forall i, In i non_blank ->
            exists u p, find_user s i = Some u /\ User.password u = Some p).
  { intros i Hi. unfold non_blank, minus in Hi. apply filter_In in Hi.
    destruct Hi as [Hself Hnot]. apply negb_true_iff in Hnot.
    destruct (find_user s i) as [ui|] eqn:Hfi; [|exfalso; exact (Hexist i Hself Hfi)].
    destruct (User.password ui) as [p|] eqn:Hp;
      [exists ui, p; split; [reflexivity | exact Hp]|].
    exfalso. assert (Hin : In i blank).
    { apply filter_In. split; [exact Hself|]. unfold is_false. rewrite Hfi, Hp.
      reflexivity. }
    apply mem_Z_In in Hin. congruence. }
  assert (Hnodup_non_blank : List.NoDup non_blank).
  { unfold non_blank, minus. apply List.NoDup_filter. exact Hnodup. }
  destruct (super_set_password_spec non_blank s Hnodup_non_blank Hnon_blank)
    as [Hret Hstored].
  assert (Hsuper : (if nonempty non_blank then super_set_password non_blank else ret tt) s
                   = (fst (super_set_password non_blank s), inr tt)).
  { destruct non_blank; [reflexivity|]. cbn [nonempty].
    apply injective_projections; [reflexivity | exact Hret]. }
  rewrite (bind_returns _ _ _ _ _ Hsuper).
  set (s1 := fst (super_set_password non_blank s)) in *.
  assert (Hfinal : forall j,
    find_user (fst ((if nonempty blank
                     then
                       modify (update_users blank (set_password_column None));;
                       invalidate_cache_password blank
                     else ret tt) s1)) j
    = (fun u => if mem_Z j blank
                then set_password (Some "") (set_password_column None u) else u)
        <$> find_user s1 j).
  { intros j. destruct blank as [|k ks] eqn:Hb.
    - cbn. destruct (find_user s1 j); reflexivity.
    - cbn [nonempty]. apply find_user_stored. }
  split.
  { destruct (nonempty blank); reflexivity. }
  intros i u Hi Hfind. rewrite Hfinal, Hstored, Hfind.
  cbn [fmap option_fmap option_map]. f_equal.
  pose proof (find_user_id s i u Hfind) as Hid.
  destruct (User.password u) as [p|] eqn:Hp.
  - assert (Hnb : mem_Z i non_blank = true).
    { apply mem_Z_In. apply filter_In. split; [exact Hi|]. apply negb_true_iff.
      destruct (mem_Z i blank) eqn:Hmem; [|reflexivity].
      unfold mem_Z in Hmem. apply existsb_exists in Hmem.
      destruct Hmem as (y & Hy & Heq). apply Z.eqb_eq in Heq. subst y.
      apply filter_In in Hy. destruct Hy as [_ Hy]. unfold is_false in Hy.
      rewrite Hfind, Hp in Hy. discriminate. }
    assert (Hbl : mem_Z i blank = false).
    { unfold non_blank, minus in Hnb. unfold mem_Z in Hnb. apply existsb_exists in Hnb.
      destruct Hnb as (y & Hy & Heq). apply Z.eqb_eq in Heq. subst y.
      apply filter_In in Hy. destruct Hy as [_ Hy]. apply negb_true_iff in Hy. exact Hy. }
    rewrite Hnb, Hbl. unfold stored, set_password, set_password_column.
    cbn [User.password User.id User.login User.password_column].
    rewrite Hp, Hid. reflexivity.
  - assert (Hbl : mem_Z i blank = true).
    { apply mem_Z_In. apply filter_In. split; [exact Hi|]. unfold is_false.
      rewrite Hfind, Hp. reflexivity. }
    rewrite Hbl.
    destruct (mem_Z i non_blank); unfold stored, set_password, set_password_column;
      cbn [User.password User.id User.login User.password_column];
      rewrite ?Hp, Hid; reflexivity.
Qed.

Lemma set_password_stores_witness :
  let s := mkState [User.mk 5 (Some "alice") (Some "new") (Some (Crypt "old"));
                    User.mk 8 (Some "carol") None (Some (Crypt "old8"))]
                   [] [] 1 ∅ None [] [] in
  List.NoDup [5; 8]
  /\ all_exist s [5; 8]
  /\ _set_password [5; 8] s
     = (mkState [User.mk 5 (Some "alice") (Some "") (Some (Crypt "new"));
                 User.mk 8 (Some "carol") (Some "") None]
                [] [] 1 ∅ None [] [], inr tt)
  /\ find_user (fst (_set_password [5; 8] s)) 8
     = Some (User.mk 8 (Some "carol") (Some "") None).
Proof.
  intros s.
  assert (Hnodup : List.NoDup [5; 8]).
  { repeat constructor; simpl; intuition discriminate. }
  assert (Hexist : all_exist s [5; 8]).
  { intros r [<- | [<- | []]]; discriminate. }
  split; [exact Hnodup|]. split; [exact Hexist|]. split; [reflexivity|].
  destruct (set_password_stores [5; 8] s false Hnodup Hexist eq_refl) as [_ Hstored].
  { right. left. intros i _. reflexivity. }
  apply (Hstored 8 (User.mk 8 (Some "carol") None (Some (Crypt "old8")))).
  - right. left. reflexivity.
  - reflexivity.
Defined.

Lemma password_conflict_several (self rest : list Z) (s : State) (e : exn) :
  record_id self = inl e ->
  all_exist s rest ->
  (exists i, In i rest /\ saml_ids_of s i <> []) ->
  filtered (password_conflict self) rest s = (s, inl e).
Proof.
  intros Hid. induction rest as [|r rest IH]; intros Hexist (i & Hi & Hlinks);
    [destruct Hi|].
  cbn [filtered].
  destruct (find_user s r) as [u|] eqn:Hfind;
    [|exfalso; exact (Hexist r (or_introl eq_refl) Hfind)].
  destruct (saml_ids_of s r) as [|l ls] eqn:Hr.
  - assert (Hfalse : password_conflict self r s = (s, inr false)).
    { rewrite (password_conflict_eq self r s u Hfind), Hr. reflexivity. }
    rewrite (bind_returns _ _ _ _ _ Hfalse).
    apply bind_raises. apply IH.
    + intros x Hx. apply Hexist. right. exact Hx.
    + exists i. split; [|exact Hlinks].
      destruct Hi as [<- | Hi]; [congruence | exact Hi].
  - apply bind_raises.
    rewrite (password_conflict_eq self r s u Hfind), Hr, Hid. reflexivity.
Qed.

(** X15: with coexistence disallowed, [_set_password] on a record set of
    two records or more, all existing and one of them with a SAML id,
    raises the [ValueError] of [self.id] and stores nothing, whatever the
    password values, blank ones included. *)
Theorem set_password_several_records (first second : Z) (others : list Z)
    (s : State) :
  let self := first :: second :: others in
  _allow_saml_and_password s = (s, inr false) ->
  all_exist s self ->
  (exists i, In i self /\ saml_ids_of s i <> []) ->
  _set_password self s = (s, inl (ValueError "Expected singleton")).
Proof.
  intros self Hallow Hexist Hlinked. unfold _set_password.
  rewrite (bind_returns _ _ _ _ _ Hallow). cbn [negb].
  apply bind_raises. apply bind_raises.
  apply password_conflict_several; [reflexivity | exact Hexist | exact Hlinked].
Qed.

Lemma set_password_several_records_witness :
  all_exist Sample.db [6; 5]
  /\ _set_password [6; 5] Sample.db
     = (Sample.db, inl (ValueError "Expected singleton")).
Proof.
  assert (Hexist : all_exist Sample.db [6; 5]).
  { intros r [<- | [<- | []]]; discriminate. }
  split; [exact Hexist|].
  apply (set_password_several_records 6 5 [] Sample.db eq_refl Hexist).
  exists 5. split; [right; left; reflexivity | discriminate].
Defined.

(** ** The empty record set *)

(** X16: on the empty record set [write] changes nothing and returns
    [True], and [_set_password], [_autoremove_password_if_saml] and
    [_ensure_saml_token_exists] change nothing and return, as long as the
    configuration parameter reads as a boolean. *)
Theorem empty_record_set (env : Env) (vals : gmap string pyval) (s : State)
    (b : bool) :
  _allow_saml_and_password s = (s, inr b) ->
  write env vals [] s = (s, inr true)
  /\ _set_password [] s = (s, inr tt)
  /\ _autoremove_password_if_saml env [] s = (s, inr tt)
  /\ _ensure_saml_token_exists [] s = (s, inr tt).
Proof.
  intros Hallow.
  assert (Hauto : _autoremove_password_if_saml env [] s = (s, inr tt)).
  { unfold _autoremove_password_if_saml.
    destruct (no_autoremove_password env); [reflexivity|].
    rewrite (bind_returns _ _ _ _ _ Hallow). destruct b; reflexivity. }
  split; [|split; [|split; [exact Hauto | reflexivity]]].
  - unfold write, write_with. cbn [super_write].
    erewrite bind_returns; [|reflexivity].
    rewrite (bind_returns _ _ _ _ _ Hauto). reflexivity.
  - unfold _set_password. rewrite (bind_returns _ _ _ _ _ Hallow).
    destruct b; reflexivity.
Qed.

Lemma empty_record_set_witness :
  _allow_saml_and_password Sample.db = (Sample.db, inr false)
  /\ write Sample.env {[ "password" := PyStr "x" ]} [] Sample.db
     = (Sample.db, inr true).
Proof.
  split; [reflexivity|].
  apply (empty_record_set Sample.env {[ "password" := PyStr "x" ]} Sample.db false
           eq_refl).
Defined.

(** ** A sign-in that is denied late, and a sign-in that is repeated *)

(** X17: the check of the login comes after the token step: when the
    subject resolves to a user whose login is empty, [auth_saml] raises
    [AccessDenied] and yet the token of that user and provider carries the
    response. *)
Theorem auth_saml_denied_after_token
    (validate : State -> Z -> string -> option string -> exn + validation)
    (env : Env) (provider : Z) (saml_response : string) (base_url : option string)
    (s : State) (v : validation) (subject : string) (l : SamlId.t)
    (rest : list SamlId.t) (u : User.t) :
  validate s provider saml_response base_url = inr v ->
  user_id v = Some subject ->
  subject <> "" ->
  saml_matches s subject provider = l :: rest ->
  mapped_attrs v = ∅ ->
  find_user s (SamlId.user_id l) = Some u ->
  char_truthy (User.login u) = false ->
  let run := auth_saml validate env provider saml_response base_url s in
  snd run = inl AccessDenied
  /\ search_token (fst run) (SamlId.user_id l) provider <> []
  /\ Forall (fun t => Token.saml_access_token t = Some saml_response)
            (search_token (fst run) (SamlId.user_id l) provider).
Proof.
  intros Hval Hsubject Hne Hm Hattrs Hfind Hlogin run. subst run.
  destruct (signin_user_tokens env provider v saml_response (SamlId.user_id l) s)
    as [Hsome Hvalue].
  rewrite auth_saml_eq, Hval, Hsubject.
  destruct subject as [|c subject']; [congruence|].
  cbn [char_truthy str_truthy negb].
  rewrite (signin_first_match env provider v saml_response _ s l rest Hsubject Hm).
  revert Hsome Hvalue. rewrite signin_user_eq. cbn zeta. rewrite Hattrs.
  change (is_empty_dict ∅) with true. cbn [negb].
  assert (Hfind1 : find_user (fst (signin_token_sync (SamlId.user_id l) provider
                                     saml_response s)) (SamlId.user_id l) = Some u).
  { unfold find_user. rewrite signin_token_sync_users. exact Hfind. }
  rewrite Hfind1, Hlogin. cbn [negb fst snd]. intros Hsome Hvalue.
  split; [reflexivity | split; assumption].
Qed.

Lemma auth_saml_denied_after_token_witness :
  let s := mkState [User.mk 5 None None None] [SamlId.mk 1 5 7 "abc"] [] 1 ∅ None
                   [] [] in
  auth_saml Sample.validate Sample.env 7 "blob" None s
  = (mkState [User.mk 5 None None None] [SamlId.mk 1 5 7 "abc"]
             [Token.mk 1 5 7 (Some "blob")] 2 ∅ None [] ["Creating auth_saml.token"],
     inl AccessDenied)
  /\ search_token (fst (auth_saml Sample.validate Sample.env 7 "blob" None s)) 5 7
     <> [].
Proof.
  intros s. split; [reflexivity|].
  apply (auth_saml_denied_after_token Sample.validate Sample.env 7 "blob" None s
           (mkValidation (Some "abc") ∅) "abc" (SamlId.mk 1 5 7 "abc") []
           (User.mk 5 None None None)); try reflexivity.
  discriminate.
Defined.

Lemma overwrite_twice (ids : list Z) (value : string) (t : Token.t) :
  overwrite ids value (overwrite ids value t) = overwrite ids value t.
Proof.
  unfold overwrite. destruct (mem_Z (Token.id t) ids) eqn:Hmem; cbn [Token.id set_saml_access_token];
    rewrite Hmem; reflexivity.
Qed.

Lemma set_tokens_same (s : State) :
  set_tokens (auth_saml_token s) (token_seq s) s = s.
Proof. destruct s. reflexivity. Qed.

(** X18: the token step of a sign-in is idempotent: run again with the
    same response, it leaves the state of the first run (no second token,
    no second log line), provided the id the sequence gives to a new token
    is not the id of a token already in the table. *)
Theorem signin_token_sync_idempotent (user provider : Z) (saml_response : string)
    (s : State) :
  (forall t, In t (auth_saml_token s) -> Token.id t <> token_seq s) ->
  let once := fst (signin_token_sync user provider saml_response s) in
  signin_token_sync user provider saml_response once = (once, inr tt).
Proof.
  intros Hfresh once. subst once.
  rewrite (signin_token_sync_eq user provider saml_response s).
  destruct (search_token s user provider) as [|t found] eqn:Hsearch; cbn [fst].
  - rewrite signin_token_sync_eq.
    set (new := Token.mk (token_seq s) user provider (Some saml_response)).
    assert (Hfound : search_token
              (set_tokens (auth_saml_token s ++ [new]) (token_seq s + 1)
                          (log_info "Creating auth_saml.token" s)) user provider
            = [new]).
    { rewrite search_token_pair_tokens. cbn [auth_saml_token set_tokens].
      rewrite pair_tokens_app. rewrite <- search_token_pair_tokens.
      cbn [log_info auth_saml_token]. unfold search_token in Hsearch |- *.
      cbn [auth_saml_token log_info]. rewrite Hsearch, pair_tokens_one.
      cbn [new Token.saml_provider_id Token.user_id]. rewrite !Z.eqb_refl.
      reflexivity. }
    rewrite Hfound.
    set (s1 := set_tokens (auth_saml_token s ++ [new]) (token_seq s + 1)
                 (log_info "Creating auth_saml.token" s)).
    assert (Hmap : map (overwrite (map Token.id [new]) saml_response)
                       (auth_saml_token s1) = auth_saml_token s1).
    { cbn [s1 auth_saml_token set_tokens]. rewrite map_app. f_equal.
      - rewrite <- (map_id (auth_saml_token s)) at 2. apply map_ext_in.
        intros x Hx. unfold overwrite, mem_Z. cbn [map existsb new Token.id].
        rewrite orb_false_r.
        destruct (Token.id x =? token_seq s) eqn:Hid; [|reflexivity].
        apply Z.eqb_eq in Hid. exfalso. exact (Hfresh x Hx Hid).
      - cbn [map]. unfold overwrite, mem_Z. cbn [map existsb new Token.id].
        rewrite Z.eqb_refl. reflexivity. }
    rewrite Hmap, set_tokens_same. reflexivity.
  - rewrite signin_token_sync_eq.
    set (ids := map Token.id (t :: found)).
    assert (Hfound : search_token
              (set_tokens (map (overwrite ids saml_response) (auth_saml_token s))
                          (token_seq s) s) user provider
            = map (overwrite ids saml_response) (t :: found)).
    { rewrite search_token_pair_tokens. cbn [auth_saml_token set_tokens].
      rewrite pair_tokens_overwrite, <- search_token_pair_tokens, Hsearch.
      reflexivity. }
    rewrite Hfound.
    assert (Hids : map Token.id (map (overwrite ids saml_response) (t :: found)) = ids).
    { rewrite map_map. unfold ids. apply map_ext. intros x.
      unfold overwrite. destruct (mem_Z (Token.id x) _); reflexivity. }
    set (s1 := set_tokens (map (overwrite ids saml_response) (auth_saml_token s))
                 (token_seq s) s).
    assert (Hmap : map (overwrite ids saml_response) (auth_saml_token s1)
                   = auth_saml_token s1).
    { cbn [s1 auth_saml_token set_tokens]. rewrite map_map. apply map_ext.
      intros x. apply overwrite_twice. }
    destruct (map (overwrite ids saml_response) (t :: found)) as [|t1 found1] eqn:Hov;
      [discriminate|].
    rewrite Hids, Hmap, set_tokens_same. reflexivity.
Qed.

Lemma signin_token_sync_idempotent_witness :
  let once := fst (signin_token_sync 5 7 "blob" Sample.db_token) in
  auth_saml_token once = [Token.mk 1 5 7 (Some "blob")]
  /\ signin_token_sync 5 7 "blob" once = (once, inr tt).
Proof.
  intros once. split; [reflexivity|].
  apply (signin_token_sync_idempotent 5 7 "blob" Sample.db_token).
  intros t [<- | []]. discriminate.
Defined.
